(** * Error boundary screen of the portal application

    A shallow embedding of the event handlers of the [Error] component
    (the error screen of the Next.js application): [insertFormatting],
    [downloadErrorReport], [createGithubIssue] and [copyToClipboard],
    together with the parts of the JavaScript platform they call
    ([String.prototype.substring], [JSON.stringify], [encodeURIComponent],
    object URLs, the clipboard promise).

    JavaScript strings are sequences of UTF-16 code units; they are
    modelled as lists of [N], a code unit being well formed when it is
    below [2^16]. *)

From Stdlib Require Import ZArith NArith Ascii String Lia.
From Stdlib Require Import DecimalN.
From stdpp Require Import base list gmap.

Local Open Scope Z_scope.
#[local] Set Warnings "-register-all".

(** ** JavaScript strings *)

Abbreviation jsstring := (list N).

(** The code units of an ASCII literal of the source text. *)
Fixpoint lit (s : string) : jsstring :=
  match s with
  | EmptyString => []
  | String a r => N_of_ascii a :: lit r
  end.

(** Code units are 16 bits wide. *)
Definition code_unit_ok (c : N) : Prop := (c < 65536)%N.
Definition wf_string (s : jsstring) : Prop := Forall code_unit_ok s.

(** [String.prototype.substring(start, end)]: both positions are clamped
    to [0, length] and swapped when they come in the wrong order. *)
Definition clamp (len x : Z) : Z := Z.min (Z.max x 0) len.

Definition substring (s : jsstring) (start : Z) (end_ : Z) : jsstring :=
  let len := Z.of_nat (length s) in
  let finalStart := clamp len start in
  let finalEnd := clamp len end_ in
  let from := Z.min finalStart finalEnd in
  let to := Z.max finalStart finalEnd in
  take (Z.to_nat (to - from)) (drop (Z.to_nat from) s).

(** [substring(start)]: the end defaults to the length of the string. *)
Definition substring_from (s : jsstring) (start : Z) : jsstring :=
  substring s start (Z.of_nat (length s)).

(** ** State of the component *)

(** The four [useState] cells of the component. [screenshot] is
    [string | null]. *)
Record View := mkView {
  showStackTrace : bool;
  copied : bool;
  screenshot : option jsstring;
  userReport : jsstring
}.

Definition setUserReport (t : jsstring) (v : View) : View :=
  mkView (showStackTrace v) (copied v) (screenshot v) t.

Definition setCopied (b : bool) (v : View) : View :=
  mkView (showStackTrace v) b (screenshot v) (userReport v).

(** The selection of the text area with id [userReport], as read from
    the document. *)
Record TextArea := mkTextArea {
  selectionStart : Z;
  selectionEnd : Z
}.

(** ** insertFormatting *)

Module Inserter.

(** The [switch] over the format name; [formattedText] keeps its
    initial value, the empty string, when no [case] matches. *)
Definition formattedText (format selectedText : jsstring) : jsstring :=
  if decide (format = lit "bold") then lit "**" ++ selectedText ++ lit "**"
  else if decide (format = lit "italic") then lit "*" ++ selectedText ++ lit "*"
  else if decide (format = lit "code") then lit "`" ++ selectedText ++ lit "`"
  else if decide (format = lit "list") then lit "- " ++ selectedText
  else [].

(** The outcome of one click on the toolbar: the view after
    [setUserReport], and the position handed to [setSelectionRange]
    (as both its ends) by the deferred callback. Without a text area the
    handler returns at once. *)
Definition insertFormatting (format : jsstring) (textarea : option TextArea)
    (v : View) : View * option Z :=
  match textarea with
  | None => (v, None)
  | Some ta =>
      let start := selectionStart ta in
      let end_ := selectionEnd ta in
      let selectedText := substring (userReport v) start end_ in
      let formatted := formattedText format selectedText in
      let newText :=
        substring (userReport v) 0 start ++ formatted
          ++ substring_from (userReport v) end_ in
      (setUserReport newText v, Some (start + Z.of_nat (length formatted)))
  end.

(** The recognised styles and the table of the specification. *)
Inductive Style := Bold | Italic | Code | ListItem.

Definition style_name (st : Style) : jsstring :=
  match st with
  | Bold => lit "bold"
  | Italic => lit "italic"
  | Code => lit "code"
  | ListItem => lit "list"
  end.

Definition spec_transform (st : Style) (S : jsstring) : jsstring :=
  match st with
  | Bold => lit "**" ++ S ++ lit "**"
  | Italic => lit "*" ++ S ++ lit "*"
  | Code => lit "`" ++ S ++ lit "`"
  | ListItem => lit "- " ++ S
  end.

Definition recognised (format : jsstring) : Prop :=
  exists st, format = style_name st.

(** The three parts of a buffer cut by a selection. *)
Definition prefix_of (buf : jsstring) (s : Z) : jsstring := take (Z.to_nat s) buf.
Definition selected_of (buf : jsstring) (s e : Z) : jsstring :=
  take (Z.to_nat (e - s)) (drop (Z.to_nat s) buf).
Definition suffix_of (buf : jsstring) (e : Z) : jsstring := drop (Z.to_nat e) buf.

Definition in_range (buf : jsstring) (s e : Z) : Prop :=
  0 <= s /\ s <= e /\ e <= Z.of_nat (length buf).

End Inserter.

(** ** JSON.stringify and JSON.parse *)

Module Json.

Local Open Scope N_scope.

(** The values the report is built from. An object is the list of its
    own enumerable properties in enumeration order; its keys are
    pairwise distinct. Numbers and arrays do not occur in the report and
    are left out of the fragment. *)
Inductive value :=
  | VUndefined
  | VNull
  | VBool (b : bool)
  | VString (s : jsstring)
  | VObject (props : list (jsstring * value)).

Fixpoint assoc (k : jsstring) (props : list (jsstring * value)) : option value :=
  match props with
  | [] => None
  | (k', x) :: ps => if decide (k' = k) then Some x else assoc k ps
  end.

(** Reading a property: [o.k], [undefined] when there is none. *)
Definition get (k : jsstring) (o : value) : value :=
  match o with
  | VObject props => default VUndefined (assoc k props)
  | _ => VUndefined
  end.

(** [CreateDataProperty]: an existing key keeps its place and takes the
    new value, a new key goes last. *)
Fixpoint CreateDataProperty (k : jsstring) (x : value)
    (props : list (jsstring * value)) : list (jsstring * value) :=
  match props with
  | [] => [(k, x)]
  | (k', y) :: ps =>
      if decide (k' = k) then (k', x) :: ps
      else (k', y) :: CreateDataProperty k x ps
  end.

Definition is_lead (c : N) : bool := (0xD800 <=? c) && (c <=? 0xDBFF).
Definition is_trail (c : N) : bool := (0xDC00 <=? c) && (c <=? 0xDFFF).

(** Hexadecimal digits: ['0'] is 48, ['a'] is 97, ['A'] is 65. *)
Definition hex_lower (d : N) : N := if d <? 10 then 48 + d else 87 + d.
Definition hex_upper (d : N) : N := if d <? 10 then 48 + d else 55 + d.

Definition hex_value (c : N) : option N :=
  if (48 <=? c) && (c <=? 57) then Some (c - 48)
  else if (97 <=? c) && (c <=? 102) then Some (c - 87)
  else if (65 <=? c) && (c <=? 70) then Some (c - 55)
  else None.

(** [UnicodeEscape]: backslash, [u] and four lower-case digits. *)
Definition UnicodeEscape (c : N) : jsstring :=
  [92; 117; hex_lower (c / 4096 mod 16); hex_lower (c / 256 mod 16);
   hex_lower (c / 16 mod 16); hex_lower (c mod 16)].

(** One code unit of [QuoteJSONString] that is not the lead of a
    surrogate pair: the two-character escapes of the table, then the
    [\u] escape for control characters and lone surrogates. *)
Definition quote_unit (c : N) : jsstring :=
  if c =? 8 then [92; 98]
  else if c =? 9 then [92; 116]
  else if c =? 10 then [92; 110]
  else if c =? 12 then [92; 102]
  else if c =? 13 then [92; 114]
  else if c =? 34 then [92; 34]
  else if c =? 92 then [92; 92]
  else if (c <? 32) || is_lead c || is_trail c then UnicodeEscape c
  else [c].

(** The characters between the quotes; a lead surrogate followed by a
    trail surrogate is one code point and is copied. *)
Fixpoint quote_chars (s : jsstring) : jsstring :=
  match s with
  | [] => []
  | c :: r =>
      if is_lead c then
        match r with
        | d :: r' =>
            if is_trail d then c :: d :: quote_chars r'
            else UnicodeEscape c ++ quote_chars r
        | [] => UnicodeEscape c
        end
      else quote_unit c ++ quote_chars r
  end.

Definition QuoteJSONString (s : jsstring) : jsstring :=
  [34] ++ quote_chars s ++ [34].

Fixpoint join (sep : jsstring) (parts : list jsstring) : jsstring :=
  match parts with
  | [] => []
  | [p] => p
  | p :: ps => p ++ sep ++ join sep ps
  end.

(** [SerializeJSONProperty] with [SerializeJSONObject] inlined; [None]
    is the result [undefined], and a property with that result is left
    out of its object. *)
Fixpoint SerializeJSONProperty (gap indent : jsstring) (x : value)
    {struct x} : option jsstring :=
  match x with
  | VUndefined => None
  | VNull => Some (lit "null")
  | VBool b => Some (if b then lit "true" else lit "false")
  | VString s => Some (QuoteJSONString s)
  | VObject props =>
      let stepback := indent in
      let indent := indent ++ gap in
      let partial :=
        (fix members (ps : list (jsstring * value)) : list jsstring :=
           match ps with
           | [] => []
           | (P, y) :: ps' =>
               match SerializeJSONProperty gap indent y with
               | None => members ps'
               | Some strP =>
                   (QuoteJSONString P ++ [58]
                      ++ (match gap with [] => [] | _ => [32] end) ++ strP)
                     :: members ps'
               end
           end) props in
      Some
        match partial with
        | [] => [123; 125]
        | _ =>
            match gap with
            | [] => [123] ++ join [44] partial ++ [125]
            | _ =>
                let separator := [44; 10] ++ indent in
                [123; 10] ++ indent ++ join separator partial
                  ++ [10] ++ stepback ++ [125]
            end
        end
  end.

(** [JSON.stringify(value, null, space)] for a numeric [space]: the gap
    is that many spaces, ten at most. *)
Definition JSON_stringify (x : value) (space : nat) : option jsstring :=
  SerializeJSONProperty (replicate (Nat.min space 10) 32) [] x.

(** JSON white space: tab, line feed, carriage return, space. *)
Definition is_ws (c : N) : bool :=
  (c =? 9) || (c =? 10) || (c =? 13) || (c =? 32).

Fixpoint skip_ws (s : jsstring) : jsstring :=
  match s with
  | c :: r => if is_ws c then skip_ws r else s
  | [] => []
  end.

Definition hex4 (a b c d : N) : option N :=
  match hex_value a, hex_value b, hex_value c, hex_value d with
  | Some x3, Some x2, Some x1, Some x0 =>
      Some (((x3 * 16 + x2) * 16 + x1) * 16 + x0)
  | _, _, _, _ => None
  end.

Definition unescape (e : N) : option N :=
  if e =? 34 then Some 34
  else if e =? 92 then Some 92
  else if e =? 47 then Some 47
  else if e =? 98 then Some 8
  else if e =? 102 then Some 12
  else if e =? 110 then Some 10
  else if e =? 114 then Some 13
  else if e =? 116 then Some 9
  else None.

(** The characters of a JSON string after its opening quote, up to and
    including the closing one; the result is the string value and the
    rest of the input. *)
Fixpoint parse_chars (s : jsstring) : option (jsstring * jsstring) :=
  match s with
  | [] => None
  | c :: r =>
      if c =? 34 then Some ([], r)
      else if c =? 92 then
        match r with
        | [] => None
        | e :: r1 =>
            if e =? 117 then
              match r1 with
              | a :: b :: c' :: d :: r2 =>
                  match hex4 a b c' d with
                  | Some u =>
                      match parse_chars r2 with
                      | Some (t, rest) => Some (u :: t, rest)
                      | None => None
                      end
                  | None => None
                  end
              | _ => None
              end
            else
              match unescape e with
              | Some u =>
                  match parse_chars r1 with
                  | Some (t, rest) => Some (u :: t, rest)
                  | None => None
                  end
              | None => None
              end
        end
      else if c <? 32 then None
      else
        match parse_chars r with
        | Some (t, rest) => Some (c :: t, rest)
        | None => None
        end
  end.

Fixpoint strip_prefix (p s : jsstring) : option jsstring :=
  match p, s with
  | [], _ => Some s
  | a :: p', b :: s' => if a =? b then strip_prefix p' s' else None
  | _ :: _, [] => None
  end.

(** A JSON value at the head of the input (white space already
    skipped), and the members of an object after its opening brace.
    [None] is a syntax error, or running out of fuel. *)
Fixpoint parse_value (fuel : nat) (s : jsstring) : option (value * jsstring) :=
  match fuel with
  | O => None
  | S f =>
      match s with
      | [] => None
      | c :: r =>
          if c =? 34 then
            match parse_chars r with
            | Some (t, rest) => Some (VString t, rest)
            | None => None
            end
          else if c =? 123 then
            match skip_ws r with
            | [] => None
            | c' :: r' =>
                if c' =? 125 then Some (VObject [], r')
                else parse_members f [] (c' :: r')
            end
          else
            match strip_prefix (lit "null") s with
            | Some rest => Some (VNull, rest)
            | None =>
                match strip_prefix (lit "true") s with
                | Some rest => Some (VBool true, rest)
                | None =>
                    match strip_prefix (lit "false") s with
                    | Some rest => Some (VBool false, rest)
                    | None => None
                    end
                end
            end
      end
  end
with parse_members (fuel : nat) (acc : list (jsstring * value)) (s : jsstring)
    : option (value * jsstring) :=
  match fuel with
  | O => None
  | S f =>
      match s with
      | [] => None
      | c :: r =>
          if c =? 34 then
            match parse_chars r with
            | Some (k, r1) =>
                match skip_ws r1 with
                | [] => None
                | c1 :: r2 =>
                    if c1 =? 58 then
                      match parse_value f (skip_ws r2) with
                      | Some (x, r3) =>
                          let acc' := CreateDataProperty k x acc in
                          match skip_ws r3 with
                          | [] => None
                          | c2 :: r4 =>
                              if c2 =? 44 then parse_members f acc' (skip_ws r4)
                              else if c2 =? 125 then Some (VObject acc', r4)
                              else None
                          end
                      | None => None
                      end
                    else None
                end
            | None => None
            end
          else None
      end
  end.

(** [JSON.parse(text)]: one value between optional white space. *)
Definition JSON_parse (text : jsstring) : option value :=
  match parse_value (S (length text)) (skip_ws text) with
  | Some (x, rest) =>
      match skip_ws rest with
      | [] => Some x
      | _ :: _ => None
      end
  | None => None
  end.

(** What a value looks like after a round trip: properties whose value
    is [undefined] are gone. *)
Fixpoint strip (x : value) : value :=
  match x with
  | VObject props =>
      VObject
        ((fix go (ps : list (jsstring * value)) : list (jsstring * value) :=
            match ps with
            | [] => []
            | (k, VUndefined) :: ps' => go ps'
            | (k, y) :: ps' => (k, strip y) :: go ps'
            end) props)
  | _ => x
  end.

(** Well-formed values: 16-bit code units, distinct keys. *)
Fixpoint wf_value (x : value) : Prop :=
  match x with
  | VString s => wf_string s
  | VObject props =>
      NoDup (map fst props)
      /\ (fix all (ps : list (jsstring * value)) : Prop :=
            match ps with
            | [] => True
            | (k, y) :: ps' => wf_string k /\ wf_value y /\ all ps'
            end) props
  | _ => True
  end.

(** The local loops of the definitions above as functions of their
    own, for the statements about them. *)
Definition members_of (gap indent : jsstring) (ps : list (jsstring * value))
    : list jsstring :=
  (fix members (ps : list (jsstring * value)) : list jsstring :=
     match ps with
     | [] => []
     | (P, y) :: ps' =>
         match SerializeJSONProperty gap indent y with
         | None => members ps'
         | Some strP =>
             (QuoteJSONString P ++ [58]
                ++ (match gap with [] => [] | _ => [32] end) ++ strP)
               :: members ps'
         end
     end) ps.

Definition strip_props (ps : list (jsstring * value)) : list (jsstring * value) :=
  (fix go (ps : list (jsstring * value)) : list (jsstring * value) :=
     match ps with
     | [] => []
     | (k, VUndefined) :: ps' => go ps'
     | (k, y) :: ps' => (k, strip y) :: go ps'
     end) ps.

Definition wf_props (ps : list (jsstring * value)) : Prop :=
  (fix all (ps : list (jsstring * value)) : Prop :=
     match ps with
     | [] => True
     | (k, y) :: ps' => wf_string k /\ wf_value y /\ all ps'
     end) ps.

(** Fuel that is enough to parse the text of a value; a property
    without text needs none. *)
Fixpoint fuel_of (x : value) : nat :=
  match x with
  | VObject props =>
      S ((fix sum (ps : list (jsstring * value)) : nat :=
            match ps with
            | [] => O
            | (_, VUndefined) :: ps' => sum ps'
            | (_, y) :: ps' => S (fuel_of y + sum ps')
            end) props)
  | _ => 1%nat
  end.

Definition members_fuel (ps : list (jsstring * value)) : nat :=
  (fix sum (ps : list (jsstring * value)) : nat :=
     match ps with
     | [] => O
     | (_, VUndefined) :: ps' => sum ps'
     | (_, y) :: ps' => S (fuel_of y + sum ps')
     end) ps.

(** One more character in front of a parsed string. *)
Definition push (c : N) (r : option (jsstring * jsstring))
    : option (jsstring * jsstring) :=
  match r with
  | Some (t, rest) => Some (c :: t, rest)
  | None => None
  end.

(** White space only. *)
Definition ws_only (w : jsstring) : Prop := Forall (fun c => is_ws c = true) w.

(** The white space in front of each member and of the closing brace. *)
Definition lead_ws (gap indent : jsstring) : jsstring :=
  match gap with [] => [] | _ => 10 :: indent ++ gap end.
Definition close_ws (gap indent : jsstring) : jsstring :=
  match gap with [] => [] | _ => 10 :: indent end.

(** Parsing the text of [x], whatever follows it, gives [strip x] and
    leaves what follows. *)
Definition round_trips (x : value) : Prop :=
  forall gap indent str fuel rest,
    ws_only gap -> ws_only indent -> wf_value x ->
    SerializeJSONProperty gap indent x = Some str ->
    (fuel_of x <= fuel)%nat ->
    parse_value fuel (str ++ rest) = Some (strip x, rest).

End Json.

(** ** encodeURIComponent and decodeURIComponent *)

Module Uri.

Import Json.
Local Open Scope N_scope.

(** The characters [Encode] copies: letters, digits and [-_.!~*'()]. *)
Definition unescaped (c : N) : bool :=
  ((65 <=? c) && (c <=? 90)) || ((97 <=? c) && (c <=? 122))
  || ((48 <=? c) && (c <=? 57))
  || (c =? 45) || (c =? 95) || (c =? 46) || (c =? 33) || (c =? 126)
  || (c =? 42) || (c =? 39) || (c =? 40) || (c =? 41).

(** The UTF-8 transformation of a code point. *)
Definition utf8_encode (cp : N) : list N :=
  if cp <? 0x80 then [cp]
  else if cp <? 0x800 then [192 + cp / 64; 128 + cp mod 64]
  else if cp <? 0x10000 then
    [224 + cp / 4096; 128 + cp / 64 mod 64; 128 + cp mod 64]
  else
    [240 + cp / 262144; 128 + cp / 4096 mod 64; 128 + cp / 64 mod 64;
     128 + cp mod 64].

(** An octet as a percent sign and two upper-case digits. *)
Definition percent (b : N) : jsstring :=
  [37; hex_upper (b / 16); hex_upper (b mod 16)].

Fixpoint percent_all (octets : list N) : jsstring :=
  match octets with
  | [] => []
  | b :: r => percent b ++ percent_all r
  end.

(** The code point of a surrogate pair. *)
Definition pair_code_point (lead trail : N) : N :=
  (lead - 0xD800) * 0x400 + (trail - 0xDC00) + 0x10000.

(** [Encode] with the unreserved set of [encodeURIComponent]; [None]
    is the [URIError] thrown at an unpaired surrogate. *)
Fixpoint Encode (s : jsstring) : option jsstring :=
  match s with
  | [] => Some []
  | c :: r =>
      if unescaped c then
        match Encode r with Some t => Some (c :: t) | None => None end
      else if is_lead c then
        match r with
        | d :: r' =>
            if is_trail d then
              match Encode r' with
              | Some t => Some (percent_all (utf8_encode (pair_code_point c d)) ++ t)
              | None => None
              end
            else None
        | [] => None
        end
      else if is_trail c then None
      else
        match Encode r with
        | Some t => Some (percent_all (utf8_encode c) ++ t)
        | None => None
        end
  end.

Definition encodeURIComponent (s : jsstring) : option jsstring := Encode s.

(** [String.prototype.isWellFormed]: no unpaired surrogate. *)
Fixpoint isWellFormed (s : jsstring) : bool :=
  match s with
  | [] => true
  | c :: r =>
      if is_lead c then
        match r with
        | d :: r' => is_trail d && isWellFormed r'
        | [] => false
        end
      else negb (is_trail c) && isWellFormed r
  end.

Definition hex_octet (a b : N) : option N :=
  match hex_value a, hex_value b with
  | Some x1, Some x0 => Some (x1 * 16 + x0)
  | _, _ => None
  end.

(** An escape sequence [%XX] read from three code units. *)
Definition escape_octet (p a b : N) : option N :=
  if p =? 37 then hex_octet a b else None.

(** The number of leading one bits of an octet. *)
Definition leading_ones (b : N) : nat :=
  if b <? 0x80 then 0
  else if b <? 0xC0 then 1
  else if b <? 0xE0 then 2
  else if b <? 0xF0 then 3
  else if b <? 0xF8 then 4
  else 5.

Definition is_continuation (b : N) : bool := (0x80 <=? b) && (b <? 0xC0).

(** The code point of a valid UTF-8 sequence of two to four octets:
    continuation octets in place, shortest form, no surrogate, at most
    [0x10FFFF]. *)
Definition utf8_decode (octets : list N) : option N :=
  match octets with
  | [b0; b1] =>
      let cp := (b0 - 192) * 64 + (b1 - 128) in
      if is_continuation b1 && (0x80 <=? cp) then Some cp else None
  | [b0; b1; b2] =>
      let cp := (b0 - 224) * 4096 + (b1 - 128) * 64 + (b2 - 128) in
      if is_continuation b1 && is_continuation b2 && (0x800 <=? cp)
         && negb (is_lead cp || is_trail cp)
      then Some cp else None
  | [b0; b1; b2; b3] =>
      let cp :=
        (b0 - 240) * 262144 + (b1 - 128) * 4096 + (b2 - 128) * 64 + (b3 - 128) in
      if is_continuation b1 && is_continuation b2 && is_continuation b3
         && (0x10000 <=? cp) && (cp <=? 0x10FFFF)
      then Some cp else None
  | _ => None
  end.

Definition UTF16EncodeCodePoint (cp : N) : jsstring :=
  if cp <=? 0xFFFF then [cp]
  else [(cp - 0x10000) / 1024 + 0xD800; (cp - 0x10000) mod 1024 + 0xDC00].

Definition decoded (octets : list N) (rest : option jsstring) : option jsstring :=
  match utf8_decode octets, rest with
  | Some cp, Some t => Some (UTF16EncodeCodePoint cp ++ t)
  | _, _ => None
  end.

(** [Decode] with the empty reserved set of [decodeURIComponent];
    [None] is the [URIError] thrown at a malformed escape. *)
Fixpoint Decode (s : jsstring) : option jsstring :=
  match s with
  | [] => Some []
  | c :: r =>
      if negb (c =? 37) then
        match Decode r with Some t => Some (c :: t) | None => None end
      else
        match r with
        | a :: b :: r1 =>
            match hex_octet a b with
            | None => None
            | Some B =>
                match leading_ones B with
                | 0%nat =>
                    match Decode r1 with Some t => Some (B :: t) | None => None end
                | 2%nat =>
                    match r1 with
                    | p1 :: a1 :: b1 :: r2 =>
                        match escape_octet p1 a1 b1 with
                        | Some B1 => decoded [B; B1] (Decode r2)
                        | None => None
                        end
                    | _ => None
                    end
                | 3%nat =>
                    match r1 with
                    | p1 :: a1 :: b1 :: p2 :: a2 :: b2 :: r2 =>
                        match escape_octet p1 a1 b1, escape_octet p2 a2 b2 with
                        | Some B1, Some B2 => decoded [B; B1; B2] (Decode r2)
                        | _, _ => None
                        end
                    | _ => None
                    end
                | 4%nat =>
                    match r1 with
                    | p1 :: a1 :: b1 :: p2 :: a2 :: b2 :: p3 :: a3 :: b3 :: r2 =>
                        match escape_octet p1 a1 b1, escape_octet p2 a2 b2,
                              escape_octet p3 a3 b3 with
                        | Some B1, Some B2, Some B3 =>
                            decoded [B; B1; B2; B3] (Decode r2)
                        | _, _, _ => None
                        end
                    | _ => None
                    end
                | _ => None
                end
            end
        | _ => None
        end
  end.

Definition decodeURIComponent (s : jsstring) : option jsstring := Decode s.

(** The input up to the first [c], and what follows it if there is one. *)
Fixpoint split_at (c : N) (s : jsstring) : jsstring * option jsstring :=
  match s with
  | [] => ([], None)
  | x :: r =>
      if x =? c then ([], Some r)
      else let '(a, b) := split_at c r in (x :: a, b)
  end.

Fixpoint split_on (c : N) (s : jsstring) : list jsstring :=
  match s with
  | [] => [[]]
  | x :: r =>
      if x =? c then [] :: split_on c r
      else
        match split_on c r with
        | seg :: segs => (x :: seg) :: segs
        | [] => [[x]]
        end
  end.

Fixpoint find_param (name : jsstring) (pairs : list jsstring) : option jsstring :=
  match pairs with
  | [] => None
  | p :: ps =>
      let '(k, v) := split_at 61 p in
      if decide (k = name) then Some (default [] v) else find_param name ps
  end.

(** The raw value of a query parameter of a URL: the query runs from
    the first [?] to the first [#], its pairs are separated by [&], and
    name and value by [=]. *)
Definition query_param (name url : jsstring) : option jsstring :=
  match split_at 63 (fst (split_at 35 url)) with
  | (_, Some query) => find_param name (split_on 38 query)
  | (_, None) => None
  end.

Definition prepend (u : jsstring) (r : option jsstring) : option jsstring :=
  match r with
  | Some t => Some (u ++ t)
  | None => None
  end.

(** A scalar value: a code point that is not a surrogate. *)
Definition scalar (cp : N) : Prop :=
  cp < 0x110000 /\ (is_lead cp || is_trail cp) = false.

(** [c] does not occur in [s]. *)
Definition absent (c : N) (s : jsstring) : bool :=
  forallb (fun x => negb (x =? c)) s.

(** The characters that structure a URL after its path: [#], [&], [=]
    and [?]. *)
Definition delimiter (c : N) : bool :=
  (c =? 35) || (c =? 38) || (c =? 61) || (c =? 63).

Definition no_delimiter (s : jsstring) : Prop :=
  Forall (fun c => delimiter c = false) s.

End Uri.

(** ** The handlers of the component *)

Module Handlers.

Import Json Uri.

(** [Error & { digest?: string }]; [stack] is optional in [Error]. *)
Record ErrorT := mkError {
  name : jsstring;
  message : jsstring;
  stack : option jsstring;
  digest : option jsstring
}.

(** What a handler reads from its surroundings: [new Date().toISOString()],
    [Date.now()], [navigator.userAgent] and [window.location.href]. *)
Record Env := mkEnv {
  now_iso : jsstring;
  now_millis : N;
  userAgent : jsstring;
  href : jsstring
}.

(** The part of the browser the handlers act on: the blob URL store,
    the files saved, the windows opened, and the clipboard with its
    permission. *)
Record Browser := mkBrowser {
  blob_urls : gmap N jsstring;
  downloads : list (jsstring * jsstring);
  windows : list (jsstring * jsstring);
  clipboard_allowed : bool;
  clipboard : option jsstring
}.

Definition nl : jsstring := [10%N].

(** A string is falsy when it is empty; [null] and [undefined] are falsy. *)
Definition truthy (o : option jsstring) : bool :=
  match o with
  | Some (_ :: _) => true
  | _ => false
  end.

(** [o || d] *)
Definition or_else (o : option jsstring) (d : jsstring) : jsstring :=
  match o with
  | Some (c :: r) => c :: r
  | _ => d
  end.

(** A value in a template literal; [undefined] reads "undefined". *)
Definition ToString (o : option jsstring) : jsstring :=
  default (lit "undefined") o.

Fixpoint digits (u : Decimal.uint) : jsstring :=
  match u with
  | Decimal.Nil => []
  | Decimal.D0 r => 48%N :: digits r
  | Decimal.D1 r => 49%N :: digits r
  | Decimal.D2 r => 50%N :: digits r
  | Decimal.D3 r => 51%N :: digits r
  | Decimal.D4 r => 52%N :: digits r
  | Decimal.D5 r => 53%N :: digits r
  | Decimal.D6 r => 54%N :: digits r
  | Decimal.D7 r => 55%N :: digits r
  | Decimal.D8 r => 56%N :: digits r
  | Decimal.D9 r => 57%N :: digits r
  end.

(** A non-negative integer in a template literal. *)
Definition decimal (n : N) : jsstring := digits (N.to_uint n).

Definition of_option (o : option jsstring) : value :=
  match o with
  | Some s => VString s
  | None => VUndefined
  end.

(** *** downloadErrorReport *)

(** The object literal [report]. *)
Definition report (env : Env) (error : ErrorT) (v : View) : value :=
  VObject
    [ (lit "timestamp", VString (now_iso env));
      (lit "error",
        VObject
          [ (lit "name", VString (name error));
            (lit "message", VString (message error));
            (lit "stack", of_option (stack error));
            (lit "digest", of_option (digest error)) ]);
      (lit "userReport", VString (userReport v));
      (lit "userAgent", VString (userAgent env));
      (lit "url", VString (href env));
      (lit "screenshot",
        VString (or_else (screenshot v) (lit "No screenshot captured"))) ].

(** [URL.createObjectURL]: a new entry of the blob URL store. *)
Definition createObjectURL (blob : jsstring) (b : Browser) : N * Browser :=
  let url := fresh (dom (blob_urls b)) in
  (url, mkBrowser (<[url := blob]> (blob_urls b)) (downloads b) (windows b)
          (clipboard_allowed b) (clipboard b)).

(** [URL.revokeObjectURL] *)
Definition revokeObjectURL (url : N) (b : Browser) : Browser :=
  mkBrowser (delete url (blob_urls b)) (downloads b) (windows b)
    (clipboard_allowed b) (clipboard b).

(** A click on an anchor with a [download] attribute saves what its
    [href] resolves to under that file name. *)
Definition click (a_href : N) (a_download : jsstring) (b : Browser) : Browser :=
  match blob_urls b !! a_href with
  | Some content =>
      mkBrowser (blob_urls b) (downloads b ++ [(a_download, content)])
        (windows b) (clipboard_allowed b) (clipboard b)
  | None => b
  end.

(** The text of the blob: [undefined] as a blob part reads "undefined". *)
Definition report_text (env : Env) (error : ErrorT) (v : View) : jsstring :=
  ToString (JSON_stringify (report env error v) 2).

Definition downloadErrorReport (env : Env) (error : ErrorT) (v : View)
    (b : Browser) : Browser :=
  let blob := report_text env error v in
  let '(url, b1) := createObjectURL blob b in
  let a_href := url in
  let a_download := lit "error-report-" ++ decimal (now_millis env) ++ lit ".json" in
  let b2 := click a_href a_download b1 in
  revokeObjectURL url b2.

(** Several invocations in a row. *)
Definition download_all (calls : list (Env * ErrorT * View)) (b : Browser) : Browser :=
  foldl (fun b c => downloadErrorReport c.1.1 c.1.2 c.2 b) b calls.

(** *** createGithubIssue *)

Definition issue_title (error : ErrorT) : jsstring :=
  lit "Error: " ++ message error.

Definition issue_body (env : Env) (error : ErrorT) (v : View) : jsstring :=
  lit "## Error Report" ++ nl
  ++ nl
  ++ lit "**Error Message:** " ++ message error ++ nl
  ++ nl
  ++ lit "**Error Type:** " ++ name error ++ nl
  ++ nl
  ++ lit "**Digest:** " ++ or_else (digest error) (lit "N/A") ++ nl
  ++ nl
  ++ lit "**User Report:**" ++ nl
  ++ or_else (Some (userReport v)) (lit "No additional information provided") ++ nl
  ++ nl
  ++ lit "**Stack Trace:**" ++ nl
  ++ lit "```" ++ nl
  ++ ToString (stack error) ++ nl
  ++ lit "```" ++ nl
  ++ nl
  ++ lit "**Environment:**" ++ nl
  ++ lit "- URL: " ++ href env ++ nl
  ++ lit "- User Agent: " ++ userAgent env ++ nl
  ++ lit "- Timestamp: " ++ now_iso env ++ nl
  ++ nl
  ++ (if truthy (screenshot v) then lit "**Screenshot:** Attached separately"
      else lit "**Screenshot:** Not captured").

Definition githubUrl (title body : jsstring) : jsstring :=
  lit "https://github.com/vsthakur101/portal/issues/new?title=" ++ title
  ++ lit "&body=" ++ body.

(** [window.open(url, target)] *)
Definition window_open (url target : jsstring) (b : Browser) : Browser :=
  mkBrowser (blob_urls b) (downloads b) (windows b ++ [(url, target)])
    (clipboard_allowed b) (clipboard b).

Inductive exception := URIError | NotAllowedError.

Inductive completion (A : Type) :=
  | Normal (a : A)
  | Throw (e : exception).
Arguments Normal {A} a.
Arguments Throw {A} e.

(** The URL the handler builds, when both components can be encoded. *)
Definition issue_url (env : Env) (error : ErrorT) (v : View) : completion jsstring :=
  match encodeURIComponent (issue_title error) with
  | None => Throw URIError
  | Some title =>
      match encodeURIComponent (issue_body env error v) with
      | None => Throw URIError
      | Some body => Normal (githubUrl title body)
      end
  end.

Definition createGithubIssue (env : Env) (error : ErrorT) (v : View)
    (b : Browser) : completion Browser :=
  match issue_url env error v with
  | Throw e => Throw e
  | Normal url => Normal (window_open url (lit "_blank") b)
  end.

(** *** copyToClipboard *)

(** How a promise is settled. *)
Inductive settled := Fulfilled | Rejected (reason : exception).

(** A pending [setTimeout(() => setCopied(b), delay)]. *)
Record Timer := mkTimer {
  timer_delay : N;
  timer_setCopied : bool
}.

(** [navigator.clipboard.writeText(text)] *)
Definition writeText (text : jsstring) (b : Browser) : settled * Browser :=
  if clipboard_allowed b then
    (Fulfilled,
     mkBrowser (blob_urls b) (downloads b) (windows b) (clipboard_allowed b)
       (Some text))
  else (Rejected NotAllowedError, b).

Definition copy_text (error : ErrorT) : jsstring :=
  lit "Error: " ++ message error ++ nl ++ nl ++ lit "Stack Trace:" ++ nl
  ++ ToString (stack error).

(** The async handler, run to the end: how the promise it returns is
    settled, the view, the browser and the timers it leaves. The body
    has no [try]: when the awaited write is rejected the statements
    after it do not run, and the handler's promise is rejected with the
    same reason. *)
Definition copyToClipboard (error : ErrorT) (v : View) (b : Browser)
    : settled * View * Browser * list Timer :=
  let text := copy_text error in
  match writeText text b with
  | (Fulfilled, b') => (Fulfilled, setCopied true v, b', [mkTimer 2000 false])
  | (Rejected reason, b') => (Rejected reason, v, b', [])
  end.

(** *** Vocabulary of the statements *)

(** [hay] holds [needle] as a run of consecutive characters. *)
Definition contains (needle hay : jsstring) : Prop :=
  exists a b, hay = a ++ needle ++ b.

Definition on_option (P : jsstring -> Prop) (o : option jsstring) : Prop :=
  match o with
  | Some s => P s
  | None => True
  end.

(** Every string holds 16-bit code units. *)
Definition wf_error (e : ErrorT) : Prop :=
  wf_string (name e) /\ wf_string (message e)
  /\ on_option wf_string (stack e) /\ on_option wf_string (digest e).

Definition wf_env (env : Env) : Prop :=
  wf_string (now_iso env) /\ wf_string (userAgent env) /\ wf_string (href env).

Definition wf_view (v : View) : Prop :=
  wf_string (userReport v) /\ on_option wf_string (screenshot v).

(** Every string is well-formed UTF-16: no unpaired surrogate. *)
Definition paired (s : jsstring) : Prop := isWellFormed s = true.

Definition paired_error (e : ErrorT) : Prop :=
  paired (name e) /\ paired (message e)
  /\ on_option paired (stack e) /\ on_option paired (digest e).

Definition paired_env (env : Env) : Prop :=
  paired (now_iso env) /\ paired (userAgent env) /\ paired (href env).

(** The fields of a report, read from the record: timestamp, error
    name, message, stack and digest, user report, user agent, url and
    screenshot. *)
Definition report_fields (r : value) : list value :=
  [ get (lit "timestamp") r;
    get (lit "name") (get (lit "error") r);
    get (lit "message") (get (lit "error") r);
    get (lit "stack") (get (lit "error") r);
    get (lit "digest") (get (lit "error") r);
    get (lit "userReport") r;
    get (lit "userAgent") r;
    get (lit "url") r;
    get (lit "screenshot") r ].

(** The template of the issue body up to the digest line. *)
Definition body_to_digest (error : ErrorT) : jsstring :=
  lit "## Error Report" ++ nl
  ++ nl
  ++ lit "**Error Message:** " ++ message error ++ nl
  ++ nl
  ++ lit "**Error Type:** " ++ name error ++ nl
  ++ nl.

(** Sample inputs. *)
Definition sample_env : Env :=
  mkEnv (lit "2024-01-01T00:00:00.000Z") 1704067200000
    (lit "Mozilla/5.0") (lit "http://localhost:3000/items?id=1#top").

Definition sample_error : ErrorT :=
  mkError (lit "TypeError") (lit "boom") (Some (lit "TypeError: boom at f (a.js:1:1)")) None.

Definition sample_view : View := mkView false false None [].

Definition sample_browser : Browser := mkBrowser ∅ [] [] false None.

End Handlers.

(** ** The rest of the screen *)

Module Screen.

Import Json Uri Handlers Inserter.

(** *** The text area after a click on the toolbar *)

(** Positions are [unsigned long] arguments. *)
Definition ToUint32 (x : Z) : Z := x mod 2 ^ 32.

(** [textarea.setSelectionRange(start, end)] on a text area whose value
    has [len] code units: positions past the end point at the end, and
    an end before the start puts both at the end. *)
Definition setSelectionRange (len start end_ : Z) : TextArea :=
  let e := Z.min (ToUint32 end_) len in
  let s := Z.min (ToUint32 start) len in
  if e <? s then mkTextArea e e else mkTextArea s e.

(** One click on a toolbar button, up to the end of the deferred
    callback: the handler runs, the component renders the new
    [userReport] into the text area, and the callback of
    [setTimeout(..., 0)] sets the selection. *)
Definition click_format (format : jsstring) (textarea : option TextArea)
    (v : View) : View * option TextArea :=
  match insertFormatting format textarea v with
  | (v', Some pos) =>
      (v', Some (setSelectionRange (Z.of_nat (length (userReport v'))) pos pos))
  | (v', None) => (v', textarea)
  end.

(** The number of characters a style puts in front of the selection,
    and in all. *)
Definition opening (st : Style) : nat :=
  match st with
  | Bold => 2
  | Italic => 1
  | Code => 1
  | ListItem => 2
  end.

Definition overhead (st : Style) : nat :=
  match st with
  | Bold => 4
  | Italic => 2
  | Code => 2
  | ListItem => 2
  end.

(** *** The copy button *)

(** The label of the button: [copied ? 'Copied!' : 'Copy']. *)
Definition copy_label (v : View) : jsstring :=
  if copied v then lit "Copied!" else lit "Copy".

(** The callback of a timer: [() => setCopied(false)]. *)
Definition fire (t : Timer) (v : View) : View :=
  setCopied (timer_setCopied t) v.

(** The component between events: its view, the browser, and the timers
    that are pending, oldest first. All of them wait 2000 ms, so they
    run in the order they were set. *)
Definition Pending : Type := View * Browser * list Timer.

(** A click on the copy button, with the promise run to its end. *)
Definition click_copy (error : ErrorT) (st : Pending) : Pending :=
  let '(v, b, ts) := st in
  let '(_, v', b', new) := copyToClipboard error v b in
  (v', b', ts ++ new).

(** The oldest pending timer runs. *)
Definition timeout (st : Pending) : Pending :=
  let '(v, b, ts) := st in
  match ts with
  | [] => st
  | t :: ts' => (fire t v, b, ts')
  end.

(** *** captureScreenshot *)

Definition setScreenshot (s : option jsstring) (v : View) : View :=
  mkView (showStackTrace v) (copied v) s (userReport v).

(** The handler runs in the browser, where [window] is defined, so the
    test is whether [html2canvas] is a property of [window]. Nothing in
    the body throws; the result is the view and the message shown by
    [alert]. *)
Definition captureScreenshot (html2canvas_in_window : bool) (v : View)
    : View * jsstring :=
  if html2canvas_in_window then
    (v, lit "Screenshot functionality requires html2canvas library. Install it with: npm install html2canvas")
  else
    (setScreenshot (Some (lit "data:image/png;base64,simulated-screenshot")) v,
     lit "Screenshot capture is being simulated. In production, integrate html2canvas or use Canvas API.").

(** The last line of the issue body. *)
Definition screenshot_line (v : View) : jsstring :=
  if truthy (screenshot v) then lit "**Screenshot:** Attached separately"
  else lit "**Screenshot:** Not captured".

(** *** The name of the downloaded file *)

Definition report_file_name (env : Env) : jsstring :=
  lit "error-report-" ++ decimal (now_millis env) ++ lit ".json".

(** Reading a decimal numeral. *)
Fixpoint undigits (s : jsstring) : option Decimal.uint :=
  match s with
  | [] => Some Decimal.Nil
  | c :: r =>
      match undigits r with
      | None => None
      | Some u =>
          if (c =? 48)%N then Some (Decimal.D0 u)
          else if (c =? 49)%N then Some (Decimal.D1 u)
          else if (c =? 50)%N then Some (Decimal.D2 u)
          else if (c =? 51)%N then Some (Decimal.D3 u)
          else if (c =? 52)%N then Some (Decimal.D4 u)
          else if (c =? 53)%N then Some (Decimal.D5 u)
          else if (c =? 54)%N then Some (Decimal.D6 u)
          else if (c =? 55)%N then Some (Decimal.D7 u)
          else if (c =? 56)%N then Some (Decimal.D8 u)
          else if (c =? 57)%N then Some (Decimal.D9 u)
          else None
      end
  end.

(** The time a file name was made from: what stands between
    [error-report-] and [.json], read as a number. *)
Definition file_time (file : jsstring) : option N :=
  match strip_prefix (lit "error-report-") file with
  | None => None
  | Some r =>
      match strip_prefix (reverse (lit ".json")) (reverse r) with
      | None => None
      | Some d => option_map N.of_uint (undigits (reverse d))
      end
  end.

(** *** The characters of the issue URL *)

(** Unreserved characters, the percent sign, and the [:], [/], [?], [=]
    and [&] of the fixed part. *)
Definition url_char (c : N) : bool :=
  (unescaped c || (c =? 37) || (c =? 58) || (c =? 47) || (c =? 63)
   || (c =? 61) || (c =? 38))%N.

(** *** More sample inputs *)

Definition sample_error_empty_digest : ErrorT :=
  mkError (lit "Error") (lit "boom") None (Some []).

Definition sample_error_bare : ErrorT :=
  mkError (lit "Error") (lit "boom") None None.

Definition sample_error_unpaired : ErrorT :=
  mkError (lit "Error") [0xD800%N] None None.

Definition sample_browser_allowed : Browser := mkBrowser ∅ [] [] true None.

End Screen.

(** * Properties *)

Ltac div_lia := zify; Z.to_euclidean_division_equations; lia.

(** ** JSON strings *)

Section JsonFacts.
Import Json.
Local Open Scope N_scope.

(** Bounded quantification over code units by enumeration. *)
Lemma N_below_forallb (P : N -> bool) (n : nat) :
  forallb P (map N.of_nat (seq 0 n)) = true ->
  forall c, c < N.of_nat n -> P c = true.
Proof.
  intros H c Hc. rewrite forallb_forall in H. apply H.
  apply in_map_iff. exists (N.to_nat c). split; [lia|].
  apply in_seq. lia.
Qed.

Lemma hex_value_lower (d : N) : d < 16 -> hex_value (hex_lower d) = Some d.
Proof.
  intros Hd.
  apply (N_below_forallb (fun d => bool_decide (hex_value (hex_lower d) = Some d)) 16)
    in Hd; [by apply bool_decide_eq_true in Hd | by vm_compute].
Qed.

Lemma hex_value_upper (d : N) : d < 16 -> hex_value (hex_upper d) = Some d.
Proof.
  intros Hd.
  apply (N_below_forallb (fun d => bool_decide (hex_value (hex_upper d) = Some d)) 16)
    in Hd; [by apply bool_decide_eq_true in Hd | by vm_compute].
Qed.

Lemma hex4_escape (c : N) :
  code_unit_ok c ->
  hex4 (hex_lower (c / 4096 mod 16)) (hex_lower (c / 256 mod 16))
       (hex_lower (c / 16 mod 16)) (hex_lower (c mod 16)) = Some c.
Proof.
  unfold code_unit_ok. intros Hc. unfold hex4.
  rewrite !hex_value_lower by (apply N.mod_lt; lia).
  f_equal. 
  div_lia.
Qed.

Lemma parse_chars_literal (c : N) (t : jsstring) :
  32 <= c -> c <> 34 -> c <> 92 ->
  parse_chars (c :: t) = push c (parse_chars t).
Proof.
  intros H1 H2 H3. cbn [parse_chars].
  rewrite (proj2 (N.eqb_neq c 34) H2), (proj2 (N.eqb_neq c 92) H3).
  rewrite (proj2 (N.ltb_ge c 32) H1). reflexivity.
Qed.

Lemma parse_chars_escape (c : N) (t : jsstring) :
  code_unit_ok c ->
  parse_chars (UnicodeEscape c ++ t) = push c (parse_chars t).
Proof.
  intros Hc. unfold UnicodeEscape. cbn [app parse_chars N.eqb Pos.eqb].
  rewrite (hex4_escape c Hc). reflexivity.
Qed.

Lemma parse_chars_unit (c : N) (t : jsstring) :
  code_unit_ok c ->
  parse_chars (quote_unit c ++ t) = push c (parse_chars t).
Proof.
  intros Hc. unfold quote_unit.
  repeat (case N.eqb_spec; [intros ->; reflexivity | intros ?]).
  destruct ((c <? 32) || is_lead c || is_trail c) eqn:E.
  - by apply parse_chars_escape.
  - apply orb_false_elim in E as [E _]. apply orb_false_elim in E as [E _].
    apply N.ltb_ge in E. by apply parse_chars_literal.
Qed.

Lemma list_ind_pair {A : Type} (P : list A -> Prop) :
  P [] ->
  (forall c r, P r -> (forall d r', r = d :: r' -> P r') -> P (c :: r)) ->
  forall s, P s.
Proof.
  intros Hnil Hcons s.
  enough (H : P s /\ (forall d r', s = d :: r' -> P r')) by apply H.
  induction s as [|c r [IH1 IH2]].
  - split; [exact Hnil | intros ? ? [=]].
  - split; [by apply Hcons | by intros ? ? [= _ <-]].
Qed.

Lemma lead_bounds (c : N) : is_lead c = true -> 0xD800 <= c <= 0xDBFF.
Proof. unfold is_lead. intros [?%N.leb_le ?%N.leb_le]%andb_prop. lia. Qed.

Lemma trail_bounds (c : N) : is_trail c = true -> 0xDC00 <= c <= 0xDFFF.
Proof. unfold is_trail. intros [?%N.leb_le ?%N.leb_le]%andb_prop. lia. Qed.

Lemma parse_quote_chars (s rest : jsstring) :
  wf_string s ->
  parse_chars (quote_chars s ++ 34 :: rest) = Some (s, rest).
Proof.
  revert s. apply (list_ind_pair (fun s => wf_string s -> _)).
  - reflexivity.
  - intros c r IH1 IH2 Hwf. apply Forall_cons in Hwf as [Hc Hr].
    cbn [quote_chars]. destruct (is_lead c) eqn:Hl.
    + apply lead_bounds in Hl. destruct r as [|d r'].
      * rewrite parse_chars_escape by done. reflexivity.
      * destruct (is_trail d) eqn:Ht.
        -- apply trail_bounds in Ht. apply Forall_cons in Hr as [Hd Hr'].
           cbn [app]. rewrite parse_chars_literal by lia.
           rewrite parse_chars_literal by lia.
           rewrite (IH2 d r' eq_refl Hr'). reflexivity.
        -- rewrite <- app_assoc, parse_chars_escape by done.
           rewrite (IH1 Hr). reflexivity.
    + rewrite <- app_assoc, parse_chars_unit by done.
      rewrite (IH1 Hr). reflexivity.
Qed.

Lemma parse_QuoteJSONString (s rest : jsstring) :
  wf_string s ->
  exists t, QuoteJSONString s ++ rest = 34 :: t /\ parse_chars t = Some (s, rest).
Proof.
  intros Hwf. exists (quote_chars s ++ 34 :: rest). split.
  - unfold QuoteJSONString. cbn [app]. by rewrite <- app_assoc.
  - by apply parse_quote_chars.
Qed.

(** The quote, the backslash, a line feed, a control character and a
    lone surrogate between quotes. *)
Example QuoteJSONString_escapes :
  QuoteJSONString [34; 92; 10; 1; 0xD800]
  = [34] ++ [92; 34] ++ [92; 92] ++ lit "\n" ++ lit "\u0001" ++ lit "\ud800" ++ [34].
Proof. reflexivity. Qed.

End JsonFacts.

(** ** JSON values *)

Section JsonRoundTrip.
Import Json.
Local Open Scope N_scope.

Lemma value_ind' (P : value -> Prop) :
  P VUndefined -> P VNull -> (forall b, P (VBool b)) -> (forall s, P (VString s)) ->
  (forall props, Forall (fun kv => P kv.2) props -> P (VObject props)) ->
  forall x, P x.
Proof.
  intros Hu Hn Hb Hs Ho.
  fix IH 1. intros [| |b|s|props]; [done..|].
  apply Ho. induction props as [|[k y] ps IHps]; constructor; [apply IH | exact IHps].
Qed.

Lemma members_of_cons gap indent k y ps :
  members_of gap indent ((k, y) :: ps) =
    match SerializeJSONProperty gap indent y with
    | None => members_of gap indent ps
    | Some strP =>
        (QuoteJSONString k ++ [58] ++ (match gap with [] => [] | _ => [32] end) ++ strP)
          :: members_of gap indent ps
    end.
Proof. reflexivity. Qed.


Lemma serialize_object gap indent props :
  SerializeJSONProperty gap indent (VObject props) =
    Some match members_of gap (indent ++ gap) props with
         | [] => [123; 125]
         | partial =>
             [123] ++ lead_ws gap indent
               ++ join (44 :: lead_ws gap indent) partial
               ++ close_ws gap indent ++ [125]
         end.
Proof.
  cbn [SerializeJSONProperty]. fold (members_of gap (indent ++ gap) props).
  destruct (members_of gap (indent ++ gap) props) as [|m ms]; [reflexivity|].
  destruct gap as [|g gap]; reflexivity.
Qed.

Lemma serialize_object_nil gap indent props :
  members_of gap (indent ++ gap) props = [] ->
  SerializeJSONProperty gap indent (VObject props) = Some [123; 125].
Proof. intros H. by rewrite serialize_object, H. Qed.

Lemma serialize_object_cons gap indent props :
  members_of gap (indent ++ gap) props <> [] ->
  SerializeJSONProperty gap indent (VObject props) =
    Some ([123] ++ lead_ws gap indent
            ++ join (44 :: lead_ws gap indent) (members_of gap (indent ++ gap) props)
            ++ close_ws gap indent ++ [125]).
Proof.
  intros H. rewrite serialize_object.
  by destruct (members_of gap (indent ++ gap) props).
Qed.

Lemma serialize_None gap indent x :
  SerializeJSONProperty gap indent x = None -> x = VUndefined.
Proof. destruct x as [| |[]| |]; cbn; congruence. Qed.

Lemma strip_object props : strip (VObject props) = VObject (strip_props props).
Proof. reflexivity. Qed.

Lemma wf_object props :
  wf_value (VObject props) <-> NoDup (map fst props) /\ wf_props props.
Proof. reflexivity. Qed.

Lemma fuel_object props : fuel_of (VObject props) = S (members_fuel props).
Proof. reflexivity. Qed.


Lemma skip_ws_app (w s : jsstring) : ws_only w -> skip_ws (w ++ s) = skip_ws s.
Proof.
  induction 1 as [|c w Hc _ IH]; [reflexivity|].
  cbn [app skip_ws]. by rewrite Hc.
Qed.

Lemma skip_ws_head (c : N) (s : jsstring) :
  is_ws c = false -> skip_ws (c :: s) = c :: s.
Proof. intros H. cbn [skip_ws]. by rewrite H. Qed.

Lemma skip_ws_to (w s r : jsstring) :
  ws_only w -> (exists t, s = 34 :: t) -> skip_ws (w ++ s ++ r) = s ++ r.
Proof.
  intros Hw [t ->]. rewrite skip_ws_app by done. by apply skip_ws_head.
Qed.

Lemma ws_only_lead gap indent : ws_only gap -> ws_only indent -> ws_only (lead_ws gap indent).
Proof.
  intros Hg Hi. unfold lead_ws. destruct gap; [constructor|].
  constructor; [reflexivity|]. by apply Forall_app.
Qed.

Lemma ws_only_close gap indent : ws_only indent -> ws_only (close_ws gap indent).
Proof.
  intros Hi. unfold close_ws. destruct gap; [constructor|].
  by constructor.
Qed.

Lemma ws_only_space (gap : jsstring) : ws_only (match gap with [] => [] | _ => [32] end).
Proof. destruct gap; repeat constructor. Qed.

(** The text of a value starts with a character that is not white space. *)
Lemma serialize_head gap indent x str :
  SerializeJSONProperty gap indent x = Some str ->
  exists c t, str = c :: t /\ is_ws c = false.
Proof.
  destruct x as [| |[]|s|props].
  - discriminate.
  - intros [= <-]. by eexists _, _.
  - intros [= <-]. by eexists _, _.
  - intros [= <-]. by eexists _, _.
  - intros [= <-]. by eexists _, _.
  - rewrite serialize_object. intros [= <-].
    destruct (members_of _ _ _); by eexists _, _.
Qed.

Lemma strip_props_cons k y ps :
  y <> VUndefined -> strip_props ((k, y) :: ps) = (k, strip y) :: strip_props ps.
Proof. destruct y; [congruence|reflexivity..]. Qed.

Lemma members_fuel_cons k y ps :
  y <> VUndefined ->
  members_fuel ((k, y) :: ps) = S (fuel_of y + members_fuel ps).
Proof. destruct y; [congruence|reflexivity..]. Qed.

Lemma CreateDataProperty_fresh k x acc :
  k ∉ map fst acc -> CreateDataProperty k x acc = acc ++ [(k, x)].
Proof.
  induction acc as [|[k' y] acc IH]; [reflexivity|].
  cbn [map fst]. intros Hk. apply not_elem_of_cons in Hk as [Hne Hk].
  cbn [CreateDataProperty app]. rewrite decide_False by congruence.
  by rewrite IH.
Qed.

(** One member at the head of the input of [parse_members]. *)
Lemma parse_member_step f acc k sp strP x tail :
  wf_string k -> ws_only sp ->
  (exists c t, strP = c :: t /\ is_ws c = false) ->
  parse_value f (strP ++ tail) = Some (x, tail) ->
  parse_members (S f) acc (QuoteJSONString k ++ [58] ++ sp ++ strP ++ tail) =
    match skip_ws tail with
    | [] => None
    | c2 :: r4 =>
        if c2 =? 44 then parse_members f (CreateDataProperty k x acc) (skip_ws r4)
        else if c2 =? 125 then Some (VObject (CreateDataProperty k x acc), r4)
        else None
    end.
Proof.
  intros Hk Hsp (c & t & -> & Hc) Hv.
  destruct (parse_QuoteJSONString k ([58] ++ sp ++ (c :: t) ++ tail) Hk) as (u & Hu & Hp).
  rewrite Hu.
  cbn [parse_members N.eqb Pos.eqb]. rewrite Hp.
  cbn [app skip_ws is_ws N.eqb Pos.eqb orb].
  rewrite (skip_ws_app sp) by done. rewrite (skip_ws_head c) by done.
  cbn [app] in Hv. rewrite Hv. reflexivity.
Qed.


Lemma members_of_nil gap indent ps :
  members_of gap indent ps = [] -> strip_props ps = [] /\ members_fuel ps = O.
Proof.
  induction ps as [|[k y] ps IH]; [done|].
  rewrite members_of_cons. destruct (SerializeJSONProperty gap indent y) eqn:E; [done|].
  apply serialize_None in E as ->. exact IH.
Qed.

Lemma join_cons_head sep m ms :
  exists t, join sep (m :: ms) = m ++ t.
Proof.
  destruct ms as [|m' ms]; cbn [join].
  - exists []. by rewrite app_nil_r.
  - by eexists.
Qed.

Lemma join_cons_ne (sep m : jsstring) (ms : list jsstring) :
  ms <> [] -> join sep (m :: ms) = m ++ sep ++ join sep ms.
Proof. by destruct ms. Qed.

Lemma members_head gap indent sep ps :
  members_of gap indent ps <> [] ->
  exists t, join sep (members_of gap indent ps) = 34 :: t.
Proof.
  induction ps as [|[k y] ps IH]; [done|].
  rewrite members_of_cons.
  destruct (SerializeJSONProperty gap indent y) as [strP|]; [|exact IH].
  intros _. destruct (join_cons_head sep
    (QuoteJSONString k ++ [58] ++ match gap with [] => [] | _ :: _ => [32] end ++ strP)
    (members_of gap indent ps)) as [t ->].
  by eexists.
Qed.

Lemma parse_members_of gap indent w0 w2 ps :
  ws_only gap -> ws_only indent -> ws_only w0 -> ws_only w2 ->
  Forall (fun kv => round_trips kv.2) ps ->
  forall acc fuel rest,
    wf_props ps -> NoDup (map fst ps) ->
    (forall k, k ∈ map fst ps -> k ∉ map fst acc) ->
    members_of gap indent ps <> [] ->
    (members_fuel ps <= fuel)%nat ->
    parse_members fuel acc
        (join (44 :: w0) (members_of gap indent ps) ++ w2 ++ 125 :: rest) =
      Some (VObject (acc ++ strip_props ps), rest).
Proof.
  intros Hgap Hind Hw0 Hw2. induction 1 as [|[k y] ps Hy _ IH]; [done|].
  intros acc fuel rest (Hk & Hwy & Hwps) Hnd Hdisj Hne Hfuel.
  cbn [snd] in Hy.
  cbn [map fst] in Hnd, Hdisj. apply NoDup_cons in Hnd as [Hkps Hnd].
  rewrite members_of_cons in Hne |- *.
  destruct (SerializeJSONProperty gap indent y) as [strP|] eqn:E.
  2:{ apply serialize_None in E as ->. apply IH; try done.
      intros k' Hk'. apply Hdisj. by right. }
  assert (Hyu : y <> VUndefined) by (intros ->; discriminate E).
  rewrite strip_props_cons by done.
  rewrite members_fuel_cons in Hfuel by done.
  destruct fuel as [|f]; [lia|].
  assert (Hacc : CreateDataProperty k (strip y) acc = acc ++ [(k, strip y)]).
  { apply CreateDataProperty_fresh, Hdisj. by left. }
  pose proof (serialize_head _ _ _ _ E) as Hhead.
  destruct (decide (members_of gap indent ps = [])) as [Hms|Hms].
  - rewrite Hms. apply members_of_nil in Hms as [-> _]. cbn [join].
    rewrite <- !app_assoc.
    rewrite (parse_member_step f acc k _ strP (strip y)); try done.
    + rewrite (skip_ws_app w2) by done. cbn [app skip_ws is_ws N.eqb Pos.eqb orb].
      by rewrite Hacc.
    + apply ws_only_space.
    + apply (Hy gap indent); [done..|lia].
  - rewrite join_cons_ne by done. rewrite <- !app_assoc.
    rewrite (parse_member_step f acc k _ strP (strip y)); try done.
    + cbn [app skip_ws is_ws N.eqb Pos.eqb orb].
      rewrite skip_ws_to by (done || by apply members_head).
      rewrite Hacc. rewrite IH; try done.
      * by rewrite <- app_assoc.
      * intros k' Hk'. rewrite map_app. cbn [map fst].
        intros [Hin|Hin%list_elem_of_singleton]%elem_of_app.
        -- revert Hin. apply Hdisj. by right.
        -- by subst k'.
      * lia.
    + apply ws_only_space.
    + apply (Hy gap indent); [done..|lia].
Qed.

Lemma round_trips_all (x : value) : round_trips x.
Proof.
  induction x as [| |b|s|props IH] using value_ind';
    intros gap indent str fuel rest Hgap Hind Hwf Hser Hfuel;
    (destruct fuel as [|f]; [cbn in Hfuel; lia|]).
  - discriminate Hser.
  - injection Hser as <-. reflexivity.
  - injection Hser as <-. by destruct b.
  - injection Hser as <-.
    destruct (parse_QuoteJSONString s rest Hwf) as (t & -> & Ht).
    cbn [parse_value N.eqb Pos.eqb]. by rewrite Ht.
  - apply wf_object in Hwf as [Hnd Hwf]. rewrite fuel_object in Hfuel.
    rewrite strip_object.
    destruct (decide (members_of gap (indent ++ gap) props = [])) as [Hms|Hms].
    + rewrite serialize_object_nil in Hser by done. injection Hser as <-.
      apply members_of_nil in Hms as [-> _]. reflexivity.
    + rewrite serialize_object_cons in Hser by done. injection Hser as <-.
      rewrite <- app_comm_cons, <- !app_assoc.
      cbn [app parse_value N.eqb Pos.eqb].
      rewrite skip_ws_to by (by apply ws_only_lead || by apply members_head).
      destruct (members_head gap (indent ++ gap) (44 :: lead_ws gap indent) props Hms)
        as [t Ht].
      rewrite Ht. cbn [app N.eqb Pos.eqb]. rewrite app_comm_cons, <- Ht.
      apply (parse_members_of gap (indent ++ gap)); try done.
      * by apply Forall_app.
      * by apply ws_only_lead.
      * by apply ws_only_close.
      * intros k _. cbn. apply not_elem_of_nil.
      * lia.
Qed.

Lemma join_length_ge (sep m : jsstring) (ms : list jsstring) :
  (length m + length (join sep ms) <= length (join sep (m :: ms)))%nat.
Proof.
  destruct ms as [|m' ms]; cbn [join].
  - cbn. lia.
  - rewrite !length_app. lia.
Qed.

Lemma fuel_le_length (x : value) :
  forall gap indent str,
    SerializeJSONProperty gap indent x = Some str -> (fuel_of x <= length str)%nat.
Proof.
  induction x as [| |b|s|props IH] using value_ind'; intros gap indent str Hser.
  - discriminate Hser.
  - injection Hser as <-. cbn. lia.
  - injection Hser as <-. destruct b; cbn; lia.
  - injection Hser as <-. unfold QuoteJSONString. rewrite !length_app. cbn. lia.
  - rewrite fuel_object.
    assert (Hm : forall sep,
      (members_fuel props <= length (join sep (members_of gap (indent ++ gap) props)))%nat).
    { clear Hser. intros sep. induction IH as [|[k y] ps Hy _ IHps]; [cbn; lia|].
      rewrite members_of_cons.
      destruct (SerializeJSONProperty gap (indent ++ gap) y) as [strP|] eqn:E.
      - assert (Hyu : y <> VUndefined) by (intros ->; discriminate E).
        rewrite members_fuel_cons by done.
        etrans; [|apply join_length_ge].
        apply Hy in E. cbn [snd] in E.
        unfold QuoteJSONString. rewrite !length_app. cbn [length]. lia.
      - apply serialize_None in E as ->. exact IHps. }
    destruct (decide (members_of gap (indent ++ gap) props = [])) as [Hms|Hms].
    + rewrite serialize_object_nil in Hser by done. injection Hser as <-.
      apply members_of_nil in Hms as [_ ->]. cbn. lia.
    + rewrite serialize_object_cons in Hser by done. injection Hser as <-.
      specialize (Hm (44 :: lead_ws gap indent)).
      cbn [length app]. rewrite !length_app. cbn [length]. lia.
Qed.

(** Serialising a well-formed value other than [undefined] and parsing
    the text gives the value back, without the properties that were
    [undefined]. *)
Lemma JSON_round_trip (x : value) (space : nat) :
  wf_value x -> x <> VUndefined ->
  exists text,
    JSON_stringify x space = Some text /\ JSON_parse text = Some (strip x).
Proof.
  intros Hwf Hx. unfold JSON_stringify.
  destruct (SerializeJSONProperty (replicate (Nat.min space 10) 32) [] x)
    as [text|] eqn:E.
  2:{ by apply serialize_None in E. }
  exists text. split; [reflexivity|]. unfold JSON_parse.
  destruct (serialize_head _ _ _ _ E) as (c & t & Ht & Hc).
  rewrite Ht at 2. rewrite skip_ws_head by done. rewrite <- Ht.
  rewrite <- (app_nil_r text) at 2.
  assert (Hgap : ws_only (replicate (Nat.min space 10) 32)).
  { apply Forall_forall. by intros c' ->%elem_of_replicate_inv. }
  rewrite (round_trips_all x _ _ _ _ [] Hgap (Forall_nil_2 _) Hwf E).
  - reflexivity.
  - apply fuel_le_length in E. lia.
Qed.

(** An object with an [undefined] property and a nested object, with
    and without indentation. *)
Example JSON_stringify_object :
  let x := VObject [(lit "a", VString (lit "x")); (lit "u", VUndefined);
                    (lit "e", VObject [(lit "n", VNull)])] in
  JSON_stringify x 0
  = Some ([123; 34] ++ lit "a" ++ [34; 58; 34] ++ lit "x" ++ [34; 44; 34]
            ++ lit "e" ++ [34; 58; 123; 34] ++ lit "n" ++ [34; 58]
            ++ lit "null" ++ [125; 125])
  /\ JSON_stringify x 2
    = Some ([123; 10] ++ lit "  " ++ [34] ++ lit "a" ++ [34; 58; 32; 34] ++ lit "x"
              ++ [34; 44; 10] ++ lit "  " ++ [34] ++ lit "e" ++ [34; 58; 32; 123; 10]
              ++ lit "    " ++ [34] ++ lit "n" ++ [34; 58; 32] ++ lit "null" ++ [10]
              ++ lit "  " ++ [125; 10; 125]).
Proof. split; reflexivity. Qed.

End JsonRoundTrip.

(** ** URI components *)

Section UriFacts.
Import Json Uri.
Local Open Scope N_scope.

Lemma hex_octet_percent (b : N) :
  b < 256 -> hex_octet (hex_upper (b / 16)) (hex_upper (b mod 16)) = Some b.
Proof.
  intros Hb. unfold hex_octet.
  rewrite !hex_value_upper by div_lia. f_equal. div_lia.
Qed.

Lemma escape_octet_percent (b : N) (t : jsstring) :
  b < 256 ->
  exists a c, percent b ++ t = 37 :: a :: c :: t /\ hex_octet a c = Some b.
Proof. intros Hb. eexists _, _. split; [reflexivity|]. by apply hex_octet_percent. Qed.

Lemma Decode_1 (b : N) (t : jsstring) :
  b < 0x80 -> Decode (percent b ++ t) = prepend [b] (Decode t).
Proof.
  intros Hb. destruct (escape_octet_percent b t) as (a & c & -> & H); [lia|].
  cbn [Decode N.eqb Pos.eqb negb]. rewrite H. unfold leading_ones.
  rewrite (proj2 (N.ltb_lt _ _) Hb). reflexivity.
Qed.

Lemma leading_ones_2 (b : N) : 0xC0 <= b < 0xE0 -> leading_ones b = 2%nat.
Proof.
  intros H. unfold leading_ones.
  rewrite (proj2 (N.ltb_ge b 0x80)), (proj2 (N.ltb_ge b 0xC0)) by lia.
  by rewrite (proj2 (N.ltb_lt b 0xE0)) by lia.
Qed.

Lemma leading_ones_3 (b : N) : 0xE0 <= b < 0xF0 -> leading_ones b = 3%nat.
Proof.
  intros H. unfold leading_ones.
  rewrite (proj2 (N.ltb_ge b 0x80)), (proj2 (N.ltb_ge b 0xC0)),
    (proj2 (N.ltb_ge b 0xE0)) by lia.
  by rewrite (proj2 (N.ltb_lt b 0xF0)) by lia.
Qed.

Lemma leading_ones_4 (b : N) : 0xF0 <= b < 0xF8 -> leading_ones b = 4%nat.
Proof.
  intros H. unfold leading_ones.
  rewrite (proj2 (N.ltb_ge b 0x80)), (proj2 (N.ltb_ge b 0xC0)),
    (proj2 (N.ltb_ge b 0xE0)), (proj2 (N.ltb_ge b 0xF0)) by lia.
  by rewrite (proj2 (N.ltb_lt b 0xF8)) by lia.
Qed.

Lemma escape_octet_ok (a c b : N) :
  hex_octet a c = Some b -> escape_octet 37 a c = Some b.
Proof. done. Qed.

Lemma Decode_2 (b0 b1 : N) (t : jsstring) :
  0xC0 <= b0 < 0xE0 -> b1 < 256 ->
  Decode (percent b0 ++ percent b1 ++ t) = decoded [b0; b1] (Decode t).
Proof.
  intros H0 H1.
  destruct (escape_octet_percent b1 t) as (a1 & c1 & -> & E1); [lia|].
  destruct (escape_octet_percent b0 (37 :: a1 :: c1 :: t)) as (a0 & c0 & -> & E0); [lia|].
  cbn [Decode N.eqb Pos.eqb negb]. rewrite E0, leading_ones_2 by done.
  by rewrite (escape_octet_ok _ _ _ E1).
Qed.

Lemma Decode_3 (b0 b1 b2 : N) (t : jsstring) :
  0xE0 <= b0 < 0xF0 -> b1 < 256 -> b2 < 256 ->
  Decode (percent b0 ++ percent b1 ++ percent b2 ++ t)
  = decoded [b0; b1; b2] (Decode t).
Proof.
  intros H0 H1 H2.
  destruct (escape_octet_percent b2 t) as (a2 & c2 & -> & E2); [lia|].
  destruct (escape_octet_percent b1 (37 :: a2 :: c2 :: t)) as (a1 & c1 & -> & E1); [lia|].
  destruct (escape_octet_percent b0 (37 :: a1 :: c1 :: 37 :: a2 :: c2 :: t))
    as (a0 & c0 & -> & E0); [lia|].
  cbn [Decode N.eqb Pos.eqb negb]. rewrite E0, leading_ones_3 by done.
  by rewrite (escape_octet_ok _ _ _ E1), (escape_octet_ok _ _ _ E2).
Qed.

Lemma Decode_4 (b0 b1 b2 b3 : N) (t : jsstring) :
  0xF0 <= b0 < 0xF8 -> b1 < 256 -> b2 < 256 -> b3 < 256 ->
  Decode (percent b0 ++ percent b1 ++ percent b2 ++ percent b3 ++ t)
  = decoded [b0; b1; b2; b3] (Decode t).
Proof.
  intros H0 H1 H2 H3.
  destruct (escape_octet_percent b3 t) as (a3 & c3 & -> & E3); [lia|].
  destruct (escape_octet_percent b2 (37 :: a3 :: c3 :: t)) as (a2 & c2 & -> & E2); [lia|].
  destruct (escape_octet_percent b1 (37 :: a2 :: c2 :: 37 :: a3 :: c3 :: t))
    as (a1 & c1 & -> & E1); [lia|].
  destruct (escape_octet_percent b0
              (37 :: a1 :: c1 :: 37 :: a2 :: c2 :: 37 :: a3 :: c3 :: t))
    as (a0 & c0 & -> & E0); [lia|].
  cbn [Decode N.eqb Pos.eqb negb]. rewrite E0, leading_ones_4 by done.
  by rewrite (escape_octet_ok _ _ _ E1), (escape_octet_ok _ _ _ E2),
    (escape_octet_ok _ _ _ E3).
Qed.

Lemma is_continuation_128 (x : N) : x < 64 -> is_continuation (128 + x) = true.
Proof.
  intros H. unfold is_continuation.
  rewrite (proj2 (N.leb_le _ _)), (proj2 (N.ltb_lt _ _)) by lia. reflexivity.
Qed.

Lemma not_surrogate (c : N) :
  (is_lead c || is_trail c) = false <-> c < 0xD800 \/ 0xDFFF < c.
Proof.
  unfold is_lead, is_trail.
  destruct (N.leb_spec 0xD800 c), (N.leb_spec c 0xDBFF), (N.leb_spec 0xDC00 c),
    (N.leb_spec c 0xDFFF); cbn; split; intros; try done; lia.
Qed.

Lemma utf8_decode_2 (a b : N) :
  a < 32 -> b < 64 -> 0x80 <= a * 64 + b ->
  utf8_decode [192 + a; 128 + b] = Some (a * 64 + b).
Proof.
  intros Ha Hb Hcp. unfold utf8_decode.
  replace (192 + a - 192) with a by lia. replace (128 + b - 128) with b by lia.
  rewrite is_continuation_128 by done.
  by rewrite (proj2 (N.leb_le _ _)) by done.
Qed.

Lemma utf8_decode_3 (a b c : N) :
  a < 16 -> b < 64 -> c < 64 -> 0x800 <= a * 4096 + b * 64 + c ->
  (is_lead (a * 4096 + b * 64 + c) || is_trail (a * 4096 + b * 64 + c)) = false ->
  utf8_decode [224 + a; 128 + b; 128 + c] = Some (a * 4096 + b * 64 + c).
Proof.
  intros Ha Hb Hc Hcp Hs. unfold utf8_decode.
  replace (224 + a - 224) with a by lia. replace (128 + b - 128) with b by lia.
  replace (128 + c - 128) with c by lia.
  rewrite !is_continuation_128 by done. rewrite Hs.
  by rewrite (proj2 (N.leb_le _ _)) by done.
Qed.

Lemma utf8_decode_4 (a b c d : N) :
  a < 8 -> b < 64 -> c < 64 -> d < 64 ->
  0x10000 <= a * 262144 + b * 4096 + c * 64 + d <= 0x10FFFF ->
  utf8_decode [240 + a; 128 + b; 128 + c; 128 + d]
  = Some (a * 262144 + b * 4096 + c * 64 + d).
Proof.
  intros Ha Hb Hc Hd Hcp. unfold utf8_decode.
  replace (240 + a - 240) with a by lia. replace (128 + b - 128) with b by lia.
  replace (128 + c - 128) with c by lia. replace (128 + d - 128) with d by lia.
  rewrite !is_continuation_128 by done.
  by rewrite !(proj2 (N.leb_le _ _)) by lia.
Qed.

Lemma Decode_code_point (cp : N) (t : jsstring) :
  scalar cp ->
  Decode (percent_all (utf8_encode cp) ++ t)
  = prepend (UTF16EncodeCodePoint cp) (Decode t).
Proof.
  intros [Hcp Hs]. unfold utf8_encode.
  destruct (N.ltb_spec cp 0x80); [|destruct (N.ltb_spec cp 0x800);
    [|destruct (N.ltb_spec cp 0x10000)]];
    cbn [percent_all]; rewrite <- ?app_assoc, ?app_nil_l.
  - rewrite Decode_1 by done. unfold UTF16EncodeCodePoint.
    by rewrite (proj2 (N.leb_le _ _)) by lia.
  - rewrite Decode_2 by div_lia. unfold decoded.
    rewrite utf8_decode_2 by div_lia.
    replace (cp / 64 * 64 + cp mod 64) with cp by div_lia. reflexivity.
  - rewrite Decode_3 by div_lia. unfold decoded.
    assert (E : cp / 4096 * 4096 + cp / 64 mod 64 * 64 + cp mod 64 = cp) by div_lia.
    rewrite utf8_decode_3; rewrite ?E; try done; try div_lia.
  - rewrite Decode_4 by div_lia. unfold decoded.
    assert (E : cp / 262144 * 262144 + cp / 4096 mod 64 * 4096
                + cp / 64 mod 64 * 64 + cp mod 64 = cp) by div_lia.
    rewrite utf8_decode_4; rewrite ?E; try done; try div_lia.
Qed.

Lemma unescaped_not_percent (c : N) : unescaped c = true -> (c =? 37) = false.
Proof. destruct (N.eqb_spec c 37) as [->|]; [by vm_compute|done]. Qed.

Lemma pair_scalar (c d : N) :
  is_lead c = true -> is_trail d = true ->
  scalar (pair_code_point c d)
  /\ UTF16EncodeCodePoint (pair_code_point c d) = [c; d].
Proof.
  intros Hc%lead_bounds Hd%trail_bounds. unfold pair_code_point.
  split; [split; [lia|apply not_surrogate; lia]|].
  unfold UTF16EncodeCodePoint. rewrite (proj2 (N.leb_gt _ _)) by lia.
  f_equal; [|f_equal]; div_lia.
Qed.

Lemma unit_scalar (c : N) :
  code_unit_ok c -> is_lead c = false -> is_trail c = false ->
  scalar c /\ UTF16EncodeCodePoint c = [c].
Proof.
  unfold code_unit_ok. intros Hc Hl Ht. split; [split; [lia|by rewrite Hl, Ht]|].
  unfold UTF16EncodeCodePoint. by rewrite (proj2 (N.leb_le _ _)) by lia.
Qed.

(** Decoding what [Encode] produced gives the string back. *)
Lemma Decode_Encode (s : jsstring) :
  wf_string s -> forall e, Encode s = Some e -> Decode e = Some s.
Proof.
  revert s. apply (list_ind_pair (fun s => wf_string s -> forall e, _ -> _)).
  - by intros _ e [= <-].
  - intros c r IH1 IH2 Hwf e. apply Forall_cons in Hwf as [Hc Hr].
    cbn [Encode]. destruct (unescaped c) eqn:Hu.
    { destruct (Encode r) as [t|]; [|done]. intros [= <-].
      cbn [Decode]. rewrite (unescaped_not_percent c Hu). cbn [negb].
      by rewrite (IH1 Hr t eq_refl). }
    destruct (is_lead c) eqn:Hl.
    { destruct r as [|d r']; [done|]. destruct (is_trail d) eqn:Ht; [|done].
      apply Forall_cons in Hr as [Hd Hr'].
      destruct (Encode r') as [t|] eqn:Et; [|done]. intros [= <-].
      destruct (pair_scalar c d Hl Ht) as [Hs Hp].
      rewrite Decode_code_point by done.
      by rewrite (IH2 d r' eq_refl Hr' t Et), Hp. }
    destruct (is_trail c) eqn:Ht; [done|].
    destruct (Encode r) as [t|]; [|done]. intros [= <-].
    destruct (unit_scalar c Hc Hl Ht) as [Hs Hp].
    rewrite Decode_code_point by done.
    by rewrite (IH1 Hr t eq_refl), Hp.
Qed.

Lemma surrogate_escaped (c : N) :
  is_lead c || is_trail c = true -> unescaped c = false.
Proof.
  intros H. destruct (unescaped c) eqn:E; [|done].
  assert (c < 0xD800).
  { unfold unescaped in E. repeat (apply orb_prop in E as [E|E]);
      try (apply andb_prop in E as [_ E%N.leb_le]; lia);
      apply N.eqb_eq in E; lia. }
  assert (Hs : is_lead c || is_trail c = false) by (apply not_surrogate; lia).
  congruence.
Qed.

(** [Encode] throws at unpaired surrogates only. *)
Lemma Encode_isWellFormed (s : jsstring) :
  isWellFormed s = true -> is_Some (Encode s).
Proof.
  revert s. apply (list_ind_pair (fun s => isWellFormed s = true -> _)).
  - by eexists.
  - intros c r IH1 IH2. cbn [isWellFormed Encode].
    destruct (is_lead c) eqn:Hl.
    + rewrite surrogate_escaped by by rewrite Hl.
      destruct r as [|d r']; [done|]. intros [Ht Hr']%andb_prop.
      rewrite Ht. destruct (IH2 d r' eq_refl Hr') as [t ->]. by eexists.
    + intros [Ht Hr]%andb_prop. apply negb_true_iff in Ht. rewrite Ht.
      destruct (IH1 Hr) as [t ->]. destruct (unescaped c); by eexists.
Qed.

Lemma Encode_unpaired (s : jsstring) :
  isWellFormed s = false -> Encode s = None.
Proof.
  revert s. apply (list_ind_pair (fun s => isWellFormed s = false -> _)).
  - done.
  - intros c r IH1 IH2. cbn [isWellFormed Encode].
    destruct (is_lead c) eqn:Hl.
    + rewrite surrogate_escaped by by rewrite Hl.
      destruct r as [|d r']; [done|].
      destruct (is_trail d) eqn:Ht; [|done]. cbn [andb].
      intros H. by rewrite (IH2 d r' eq_refl H).
    + destruct (is_trail c) eqn:Ht; cbn [negb andb].
      * by rewrite surrogate_escaped by by rewrite Hl, Ht.
      * intros H. rewrite (IH1 H). by destruct (unescaped c).
Qed.

Lemma isWellFormed_app (a b : jsstring) :
  isWellFormed a = true -> isWellFormed b = true -> isWellFormed (a ++ b) = true.
Proof.
  intros Ha Hb. revert a Ha.
  apply (list_ind_pair (fun a => isWellFormed a = true -> isWellFormed (a ++ b) = true)).
  - done.
  - intros c r IH1 IH2. cbn [isWellFormed app].
    destruct (is_lead c).
    + destruct r as [|d r']; [done|]. intros [Ht Hr']%andb_prop.
      cbn [app]. rewrite Ht. cbn [andb]. by apply (IH2 d r').
    + intros [Ht Hr]%andb_prop. rewrite Ht. cbn [andb]. by apply IH1.
Qed.

(** The model on a few inputs: reserved characters, a character outside
    the basic plane, an unpaired surrogate, an overlong sequence. *)
Example Encode_reserved :
  encodeURIComponent (lit "a b&c=d?#/%+") = Some (lit "a%20b%26c%3Dd%3F%23%2F%25%2B").
Proof. reflexivity. Qed.

Example Encode_surrogate_pair :
  encodeURIComponent [0xD83D; 0xDE00] = Some (lit "%F0%9F%98%80")
  /\ decodeURIComponent (lit "%F0%9F%98%80") = Some [0xD83D; 0xDE00].
Proof. split; reflexivity. Qed.

Example Encode_lone_surrogate :
  encodeURIComponent [0xD83D] = None /\ encodeURIComponent [0xDE00; 0xD83D] = None.
Proof. split; reflexivity. Qed.

Example Decode_malformed :
  decodeURIComponent (lit "%C0%80") = None
  /\ decodeURIComponent (lit "%ED%A0%80") = None
  /\ decodeURIComponent (lit "%E2%82") = None
  /\ decodeURIComponent (lit "%e2%82%ac") = Some [0x20AC].
Proof. repeat split; reflexivity. Qed.

End UriFacts.

(** ** Query parameters *)

Section QueryFacts.
Import Json Uri Handlers.
Local Open Scope N_scope.

Lemma absent_app (c : N) (a b : jsstring) :
  absent c (a ++ b) = absent c a && absent c b.
Proof. apply forallb_app. Qed.

Lemma no_delimiter_absent (c : N) (s : jsstring) :
  delimiter c = true -> no_delimiter s -> absent c s = true.
Proof.
  intros Hc Hs. apply forallb_forall. intros x Hx.
  apply Forall_forall with (x := x) in Hs; [|by apply list_elem_of_In].
  destruct (N.eqb_spec x c) as [->|]; [congruence|done].
Qed.

Lemma split_at_found (c : N) (a r : jsstring) :
  absent c a = true -> split_at c (a ++ c :: r) = (a, Some r).
Proof.
  induction a as [|x a IH]; cbn [app split_at absent forallb].
  - by rewrite N.eqb_refl.
  - intros [Hx Ha]%andb_prop. apply negb_true_iff in Hx. rewrite Hx.
    by rewrite (IH Ha).
Qed.

Lemma split_at_absent (c : N) (a : jsstring) :
  absent c a = true -> split_at c a = (a, None).
Proof.
  induction a as [|x a IH]; cbn [split_at absent forallb]; [done|].
  intros [Hx Ha]%andb_prop. apply negb_true_iff in Hx. rewrite Hx.
  by rewrite (IH Ha).
Qed.

Lemma split_on_found (c : N) (a r : jsstring) :
  absent c a = true -> split_on c (a ++ c :: r) = a :: split_on c r.
Proof.
  induction a as [|x a IH]; cbn [app split_on absent forallb].
  - by rewrite N.eqb_refl.
  - intros [Hx Ha]%andb_prop. apply negb_true_iff in Hx. rewrite Hx.
    by rewrite (IH Ha).
Qed.

Lemma split_on_absent (c : N) (a : jsstring) :
  absent c a = true -> split_on c a = [a].
Proof.
  induction a as [|x a IH]; cbn [split_on absent forallb]; [done|].
  intros [Hx Ha]%andb_prop. apply negb_true_iff in Hx. rewrite Hx.
  by rewrite (IH Ha).
Qed.

Lemma hex_upper_no_delimiter (d : N) : delimiter (hex_upper d) = false.
Proof.
  unfold hex_upper, delimiter.
  destruct (N.ltb_spec d 10);
    by rewrite !(proj2 (N.eqb_neq _ _)) by lia.
Qed.

Lemma percent_all_no_delimiter (octets : list N) (t : jsstring) :
  no_delimiter t -> no_delimiter (percent_all octets ++ t).
Proof.
  intros Ht. induction octets as [|b octets IH]; [done|].
  cbn [percent_all percent app].
  repeat (constructor; [by (reflexivity || apply hex_upper_no_delimiter)|]). exact IH.
Qed.

Lemma unescaped_no_delimiter (c : N) : unescaped c = true -> delimiter c = false.
Proof.
  intros H. unfold delimiter.
  destruct (N.eqb_spec c 35) as [->|]; [by vm_compute in H|].
  destruct (N.eqb_spec c 38) as [->|]; [by vm_compute in H|].
  destruct (N.eqb_spec c 61) as [->|]; [by vm_compute in H|].
  destruct (N.eqb_spec c 63) as [->|]; [by vm_compute in H|]. done.
Qed.

(** The text [Encode] produces holds none of [#], [&], [=] and [?]. *)
Lemma Encode_no_delimiter (s : jsstring) :
  forall e, Encode s = Some e -> no_delimiter e.
Proof.
  revert s. apply (list_ind_pair (fun s => forall e, Encode s = Some e -> _)).
  - intros e [= <-]. constructor.
  - intros c r IH1 IH2 e. cbn [Encode].
    destruct (unescaped c) eqn:Hu.
    { destruct (Encode r) as [t|]; [|done]. intros [= <-].
      constructor; [by apply unescaped_no_delimiter | by apply IH1]. }
    destruct (is_lead c).
    { destruct r as [|d r']; [done|]. destruct (is_trail d); [|done].
      destruct (Encode r') as [t|] eqn:Et; [|done]. intros [= <-].
      apply percent_all_no_delimiter. by apply (IH2 d r'). }
    destruct (is_trail c); [done|].
    destruct (Encode r) as [t|]; [|done]. intros [= <-].
    apply percent_all_no_delimiter. by apply IH1.
Qed.

(** The two parameters of the issue URL are the two encoded texts. *)
Lemma query_param_githubUrl (title body : jsstring) :
  no_delimiter title -> no_delimiter body ->
  query_param (lit "title") (githubUrl title body) = Some title
  /\ query_param (lit "body") (githubUrl title body) = Some body.
Proof.
  intros Ht Hb. unfold query_param, githubUrl.
  assert (H35 : absent 35
    (lit "https://github.com/vsthakur101/portal/issues/new?title=" ++ title
       ++ lit "&body=" ++ body) = true).
  { rewrite !absent_app.
    rewrite (no_delimiter_absent 35 title), (no_delimiter_absent 35 body) by done.
    reflexivity. }
  rewrite (split_at_absent 35 _ H35). cbn [fst].
  change (lit "https://github.com/vsthakur101/portal/issues/new?title=" ++ title
            ++ lit "&body=" ++ body)
    with (lit "https://github.com/vsthakur101/portal/issues/new"
            ++ 63 :: (lit "title=" ++ title) ++ 38 :: lit "body=" ++ body).
  rewrite split_at_found by reflexivity.
  rewrite split_on_found.
  2:{ rewrite absent_app, (no_delimiter_absent 38 title) by done. reflexivity. }
  rewrite split_on_absent.
  2:{ rewrite absent_app, (no_delimiter_absent 38 body) by done. reflexivity. }
  cbn [find_param].
  change (lit "title=" ++ title) with (lit "title" ++ 61 :: title).
  change (lit "body=" ++ body) with (lit "body" ++ 61 :: body).
  rewrite !split_at_found by reflexivity. split.
  - by rewrite decide_True.
  - rewrite decide_False by discriminate. by rewrite decide_True.
Qed.

End QueryFacts.

(** ** The markdown inserter *)

Section InserterFacts.
Import Inserter.

Lemma substring_in_range (buf : jsstring) (s e : Z) :
  in_range buf s e -> substring buf s e = selected_of buf s e.
Proof.
  intros (H0 & H1 & H2). unfold substring, selected_of, clamp.
  rewrite (Z.max_l s 0) by lia. rewrite (Z.max_l e 0) by lia.
  rewrite (Z.min_l s) by lia. rewrite (Z.min_l e) by lia.
  rewrite (Z.min_l s e) by lia. rewrite (Z.max_r s e) by lia. reflexivity.
Qed.

Lemma substring_prefix (buf : jsstring) (s : Z) :
  0 <= s <= Z.of_nat (length buf) -> substring buf 0 s = prefix_of buf s.
Proof.
  intros H. unfold substring, prefix_of, clamp.
  rewrite (Z.max_l 0 0) by lia. rewrite (Z.max_l s 0) by lia.
  rewrite (Z.min_l 0) by lia. rewrite (Z.min_l s) by lia.
  rewrite (Z.min_l 0 s) by lia. rewrite (Z.max_r 0 s) by lia.
  rewrite Z.sub_0_r. reflexivity.
Qed.

Lemma substring_suffix (buf : jsstring) (e : Z) :
  0 <= e <= Z.of_nat (length buf) -> substring_from buf e = suffix_of buf e.
Proof.
  intros H. unfold substring_from, substring, suffix_of, clamp.
  rewrite (Z.max_l e 0) by lia. rewrite (Z.max_l (Z.of_nat _) 0) by lia.
  rewrite (Z.min_l e) by lia. rewrite Z.min_id.
  rewrite (Z.min_l e) by lia. rewrite (Z.max_r e) by lia.
  apply take_ge. rewrite length_drop. lia.
Qed.

Lemma formattedText_style (st : Style) (S : jsstring) :
  formattedText (style_name st) S = spec_transform st S.
Proof. destruct st; reflexivity. Qed.

Lemma formattedText_other (format S : jsstring) :
  ~ recognised format -> formattedText format S = [].
Proof.
  intros Hn. unfold formattedText.
  repeat case_decide; try reflexivity; exfalso; apply Hn.
  - by exists Bold.
  - by exists Italic.
  - by exists Code.
  - by exists ListItem.
Qed.

Lemma insertFormatting_in_range (format : jsstring) (v : View) (s e : Z) :
  in_range (userReport v) s e ->
  insertFormatting format (Some (mkTextArea s e)) v =
    (setUserReport
       (prefix_of (userReport v) s
          ++ formattedText format (selected_of (userReport v) s e)
          ++ suffix_of (userReport v) e) v,
     Some (s + Z.of_nat (length (formattedText format (selected_of (userReport v) s e))))).
Proof.
  intros Hr. pose proof Hr as (H0 & H1 & H2).
  unfold insertFormatting. cbn [selectionStart selectionEnd].
  rewrite (substring_in_range _ s e Hr).
  rewrite substring_prefix by lia. rewrite substring_suffix by lia.
  reflexivity.
Qed.

(** C1. For a selection in range and each of the four recognised styles,
    [insertFormatting] yields prefix + transformed + suffix, where the
    transformed text is the selection wrapped as the table says, and the
    cursor is put at [selectionStart + length transformed]. On
    ["hello world"], selection 0..5 and style bold this is
    ["**hello** world"] with the cursor at 9. *)
Theorem insertFormatting_recognised :
  (forall (st : Style) (v : View) (s e : Z),
      in_range (userReport v) s e ->
      let S := selected_of (userReport v) s e in
      insertFormatting (style_name st) (Some (mkTextArea s e)) v =
        (setUserReport
           (prefix_of (userReport v) s ++ spec_transform st S
              ++ suffix_of (userReport v) e) v,
         Some (s + Z.of_nat (length (spec_transform st S)))))
  /\ (forall sh cp sc,
      insertFormatting (lit "bold") (Some (mkTextArea 0 5))
          (mkView sh cp sc (lit "hello world")) =
        (mkView sh cp sc (lit "**hello** world"), Some 9)).
Proof.
  split.
  - intros st v s e Hr S. rewrite (insertFormatting_in_range _ _ _ _ Hr).
    rewrite formattedText_style. reflexivity.
  - intros sh cp sc. reflexivity.
Qed.

Lemma insertFormatting_recognised_witness :
  in_range (lit "ab cd") 3 5 /\
  insertFormatting (lit "code") (Some (mkTextArea 3 5))
      (mkView false false None (lit "ab cd")) =
    (mkView false false None (lit "ab `cd`"), Some 7).
Proof.
  split.
  - unfold in_range. cbn. lia.
  - exact (proj1 insertFormatting_recognised Code
             (mkView false false None (lit "ab cd")) 3 5
             ltac:(unfold in_range; cbn; lia)).
Defined.

(** C2 as stated fails: with an unrecognised style and a non-empty
    selection the buffer does not stay as it was. On ["hello world"]
    with the selection 0..5 the selected text is removed. *)
Lemma unrecognised_style_changes_buffer :
  ~ (forall (format : jsstring) (v : View) (s e : Z),
        ~ recognised format -> in_range (userReport v) s e ->
        insertFormatting format (Some (mkTextArea s e)) v = (v, Some s)).
Proof.
  intros H.
  specialize (H (lit "underline") (mkView false false None (lit "hello world")) 0 5).
  assert (Hn : ~ recognised (lit "underline")).
  { intros [st Hst]. destruct st; discriminate Hst. }
  specialize (H Hn ltac:(unfold in_range; cbn; lia)).
  vm_compute in H. discriminate H.
Qed.

(** C2, amended. For a selection in range and a style outside the four
    recognised ones, which no button of the toolbar passes, no [case]
    matches and [insertFormatting] inserts no character: the new buffer
    is prefix + suffix, it is the old buffer when the selection is
    empty, and the cursor is put at [selectionStart]. *)
Theorem insertFormatting_unrecognised :
  forall (format : jsstring) (v : View) (s e : Z),
    ~ recognised format -> in_range (userReport v) s e ->
    insertFormatting format (Some (mkTextArea s e)) v =
      (setUserReport (prefix_of (userReport v) s ++ suffix_of (userReport v) e) v,
       Some s)
    /\ (s = e -> insertFormatting format (Some (mkTextArea s e)) v = (v, Some s)).
Proof.
  intros format v s e Hn Hr.
  rewrite (insertFormatting_in_range _ _ _ _ Hr).
  rewrite (formattedText_other _ _ Hn). cbn [length app].
  rewrite Z.add_0_r. split; [reflexivity|].
  intros ->. unfold prefix_of, suffix_of. rewrite take_drop.
  destruct v; reflexivity.
Qed.

Lemma insertFormatting_unrecognised_witness :
  ~ recognised (lit "underline")
  /\ in_range (lit "hello world") 0 5
  /\ insertFormatting (lit "underline") (Some (mkTextArea 0 5))
        (mkView false false None (lit "hello world")) =
      (mkView false false None (lit " world"), Some 0).
Proof.
  assert (Hn : ~ recognised (lit "underline")).
  { intros [st Hst]. destruct st; discriminate Hst. }
  assert (Hr : in_range (lit "hello world") 0 5).
  { unfold in_range. cbn. lia. }
  split; [exact Hn|]. split; [exact Hr|].
  exact (proj1 (insertFormatting_unrecognised (lit "underline")
           (mkView false false None (lit "hello world")) 0 5 Hn Hr)).
Defined.

(** C10. For every style, recognised or not, and a selection in range,
    the new buffer is buffer[0..selectionStart) + inserted +
    buffer[selectionEnd..): the characters before the selection keep
    their positions, and those from [selectionEnd] on follow the
    inserted text in their old order. *)
Theorem insertFormatting_frame :
  forall (format : jsstring) (v : View) (s e : Z),
    in_range (userReport v) s e ->
    exists inserted : jsstring,
      let buf := userReport v in
      let buf' := userReport (fst (insertFormatting format (Some (mkTextArea s e)) v)) in
      buf' = prefix_of buf s ++ inserted ++ suffix_of buf e
      /\ (forall i : nat, (i < Z.to_nat s)%nat -> buf' !! i = buf !! i)
      /\ (forall j : nat, (Z.to_nat e <= j)%nat ->
            buf' !! (Z.to_nat s + length inserted + (j - Z.to_nat e))%nat = buf !! j).
Proof.
  intros format v s e Hr. pose proof Hr as (H0 & H1 & H2).
  exists (formattedText format (selected_of (userReport v) s e)).
  rewrite (insertFormatting_in_range _ _ _ _ Hr). cbn [fst userReport setUserReport].
  assert (Hlen : length (prefix_of (userReport v) s) = Z.to_nat s).
  { unfold prefix_of. rewrite length_take. lia. }
  split; [reflexivity|]. split.
  - intros i Hi. rewrite lookup_app_l by lia.
    unfold prefix_of. apply lookup_take_lt; lia.
  - intros j Hj. rewrite lookup_app_r by lia. rewrite Hlen.
    rewrite lookup_app_r by lia. unfold suffix_of. rewrite lookup_drop.
    f_equal. lia.
Qed.

Lemma insertFormatting_frame_witness :
  in_range (lit "ab") 2 2
  /\ exists inserted : jsstring,
       userReport (fst (insertFormatting (lit "list") (Some (mkTextArea 2 2))
                          (mkView false false None (lit "ab")))) =
         prefix_of (lit "ab") 2 ++ inserted ++ suffix_of (lit "ab") 2.
Proof.
  assert (Hr : in_range (lit "ab") 2 2).
  { unfold in_range. cbn. lia. }
  split; [exact Hr|].
  destruct (insertFormatting_frame (lit "list")
              (mkView false false None (lit "ab")) 2 2 Hr) as (ins & H & _).
  exists ins. exact H.
Defined.

End InserterFacts.

(** ** The report assembler *)

Section HandlerFacts.
Import Json Uri Handlers.
Local Open Scope N_scope.

Lemma wf_lit (s : string) : wf_string (lit s).
Proof.
  induction s as [|a s IH]; constructor; [|exact IH].
  unfold code_unit_ok. pose proof (N_ascii_bounded a). lia.
Qed.

Lemma paired_lit (s : string) : paired (lit s).
Proof.
  unfold paired. induction s as [|a s IH]; [done|].
  cbn [lit isWellFormed]. pose proof (N_ascii_bounded a) as Ha.
  unfold is_lead, is_trail.
  rewrite (proj2 (N.leb_gt 0xD800 _)), (proj2 (N.leb_gt 0xDC00 _)) by lia.
  exact IH.
Qed.

Lemma paired_app (a b : jsstring) : paired a -> paired b -> paired (a ++ b).
Proof. apply isWellFormed_app. Qed.

Lemma wf_or_else (o : option jsstring) (d : jsstring) :
  on_option wf_string o -> wf_string d -> wf_string (or_else o d).
Proof. destruct o as [[|c r]|]; cbn; auto. Qed.

Lemma paired_or_else (o : option jsstring) (d : jsstring) :
  on_option paired o -> paired d -> paired (or_else o d).
Proof. destruct o as [[|c r]|]; cbn; auto. Qed.

Lemma paired_ToString (o : option jsstring) : on_option paired o -> paired (ToString o).
Proof. destruct o; cbn; [auto|intros _; apply (paired_lit "undefined")]. Qed.

Lemma wf_of_option (o : option jsstring) : on_option wf_string o -> wf_value (of_option o).
Proof. by destruct o. Qed.

Lemma wf_report (env : Env) (error : ErrorT) (v : View) :
  wf_env env -> wf_error error -> wf_view v -> wf_value (report env error v).
Proof.
  intros (Hiso & Hua & Hhref) (Hname & Hmsg & Hstack & Hdigest) (Hur & Hshot).
  unfold report. apply wf_object. split.
  - cbn [map fst]. apply (bool_decide_unpack _). by vm_compute.
  - cbn [wf_props]. repeat split; try apply wf_lit; try done.
    + cbn [map fst]. apply (bool_decide_unpack _). by vm_compute.
    + by apply wf_of_option.
    + by apply wf_of_option.
    + apply wf_or_else; [done|apply wf_lit].
Qed.

Lemma report_fields_strip (env : Env) (error : ErrorT) (v : View) :
  report_fields (strip (report env error v)) = report_fields (report env error v).
Proof. destruct error as [n m [s|] [d|]]; reflexivity. Qed.

Lemma report_parses (env : Env) (error : ErrorT) (v : View) :
  wf_env env -> wf_error error -> wf_view v ->
  exists text,
    JSON_stringify (report env error v) 2 = Some text
    /\ report_text env error v = text
    /\ JSON_parse text = Some (strip (report env error v)).
Proof.
  intros Henv Herr Hv.
  destruct (JSON_round_trip (report env error v) 2) as (text & Hs & Hp).
  - by apply wf_report.
  - discriminate.
  - exists text. unfold report_text. by rewrite Hs.
Qed.

Lemma fresh_url_unused (b : Browser) :
  blob_urls b !! fresh (dom (blob_urls b)) = None.
Proof. apply not_elem_of_dom, is_fresh. Qed.

Lemma downloadErrorReport_browser (env : Env) (error : ErrorT) (v : View) (b : Browser) :
  downloadErrorReport env error v b =
    mkBrowser (blob_urls b)
      (downloads b
         ++ [(lit "error-report-" ++ decimal (now_millis env) ++ lit ".json",
              report_text env error v)])
      (windows b) (clipboard_allowed b) (clipboard b).
Proof.
  unfold downloadErrorReport, createObjectURL, click, revokeObjectURL.
  cbn [blob_urls downloads windows clipboard_allowed clipboard].
  rewrite lookup_insert_eq.
  cbn [blob_urls downloads windows clipboard_allowed clipboard].
  by rewrite delete_insert_id by apply fresh_url_unused.
Qed.

(** C8. The object URL that [downloadErrorReport] creates is revoked
    before it returns: the URL is not in the blob URL store afterwards,
    the store is what it was before the call, the file has been saved
    in between, and any number of calls leaves the store unchanged. *)
Theorem downloadErrorReport_revokes_url :
  (forall env error v b,
      let url := fresh (dom (blob_urls b)) in
      let b' := downloadErrorReport env error v b in
      fst (createObjectURL (report_text env error v) b) = url
      /\ blob_urls b' !! url = None
      /\ blob_urls b' = blob_urls b
      /\ downloads b' =
           downloads b
             ++ [(lit "error-report-" ++ decimal (now_millis env) ++ lit ".json",
                  report_text env error v)])
  /\ (forall calls b, blob_urls (download_all calls b) = blob_urls b).
Proof.
  split.
  - intros env error v b url b'. subst url b'.
    rewrite downloadErrorReport_browser. cbn [blob_urls downloads].
    split; [reflexivity|]. split; [apply fresh_url_unused|]. done.
  - intros calls. unfold download_all.
    induction calls as [|[[env error] v] calls IH]; intros b; [reflexivity|].
    cbn [foldl]. rewrite IH. cbn [fst snd].
    by rewrite downloadErrorReport_browser.
Qed.

(** C7. What the handler does when the clipboard write is rejected:
    the view, the browser and the timers stay as they were, so [copied]
    is not set, but the failure is not contained, the promise of
    [copyToClipboard] being rejected with the reason of the write. *)
Theorem copyToClipboard_write_rejected :
  forall error v b,
    clipboard_allowed b = false ->
    copyToClipboard error v b = (Rejected NotAllowedError, v, b, [])
    /\ copied (copyToClipboard error v b).1.1.2 = copied v.
Proof.
  intros error v b Hb. unfold copyToClipboard, writeText. rewrite Hb. done.
Qed.

Lemma copyToClipboard_write_rejected_witness :
  clipboard_allowed sample_browser = false
  /\ copyToClipboard sample_error sample_view sample_browser
     = (Rejected NotAllowedError, sample_view, sample_browser, []).
Proof.
  split; [reflexivity|].
  exact (proj1 (copyToClipboard_write_rejected sample_error sample_view
                  sample_browser eq_refl)).
Defined.

(** C4. The text that [downloadErrorReport] puts in the blob parses
    back to a record with the same timestamp, error name, message,
    stack and digest, user report, user agent, url and screenshot as the
    report that was serialised. *)
Theorem report_round_trip :
  forall env error v,
    wf_env env -> wf_error error -> wf_view v ->
    exists text parsed,
      JSON_stringify (report env error v) 2 = Some text
      /\ report_text env error v = text
      /\ JSON_parse text = Some parsed
      /\ report_fields parsed = report_fields (report env error v)
      /\ report_fields parsed =
           [ VString (now_iso env); VString (name error); VString (message error);
             of_option (stack error); of_option (digest error);
             VString (userReport v); VString (userAgent env); VString (href env);
             VString (or_else (screenshot v) (lit "No screenshot captured")) ].
Proof.
  intros env error v Henv Herr Hv.
  destruct (report_parses env error v Henv Herr Hv) as (text & Hs & Ht & Hp).
  exists text, (strip (report env error v)).
  rewrite report_fields_strip. by repeat split.
Qed.

Lemma sample_wf : wf_env sample_env /\ wf_error sample_error /\ wf_view sample_view.
Proof.
  repeat split; try apply wf_lit; constructor.
Qed.

Lemma report_round_trip_witness :
  (wf_env sample_env /\ wf_error sample_error /\ wf_view sample_view)
  /\ exists text parsed,
       JSON_stringify (report sample_env sample_error sample_view) 2 = Some text
       /\ JSON_parse text = Some parsed
       /\ report_fields parsed
          = report_fields (report sample_env sample_error sample_view).
Proof.
  split; [exact sample_wf|].
  destruct (report_round_trip sample_env sample_error sample_view
              (proj1 sample_wf) (proj1 (proj2 sample_wf)) (proj2 (proj2 sample_wf)))
    as (text & parsed & H1 & _ & H2 & H3 & _).
  by exists text, parsed.
Defined.

(** C3 as stated fails: the report keeps an absent digest absent. *)
Lemma report_digest_not_marker :
  ~ (forall env error v,
        digest error = None ->
        get (lit "digest") (get (lit "error") (report env error v))
        = VString (lit "N/A")).
Proof.
  intros H. specialize (H sample_env sample_error sample_view eq_refl).
  discriminate H.
Qed.

(** C3, amended. For an error without digest the issue body reads
    [N/A] on its digest line; the report of [downloadErrorReport] keeps
    the digest [undefined], and the error object parsed back from the
    JSON text has no [digest] property. *)
Theorem digest_absent :
  forall env error v,
    digest error = None -> wf_env env -> wf_error error -> wf_view v ->
    (exists rest,
        issue_body env error v
        = body_to_digest error ++ lit "**Digest:** N/A" ++ nl ++ rest)
    /\ get (lit "digest") (get (lit "error") (report env error v)) = VUndefined
    /\ exists text parsed props,
         JSON_stringify (report env error v) 2 = Some text
         /\ JSON_parse text = Some parsed
         /\ get (lit "error") parsed = VObject props
         /\ assoc (lit "digest") props = None.
Proof.
  intros env error v Hd Henv Herr Hv. split; [|split].
  - unfold issue_body, body_to_digest. rewrite Hd. cbn [or_else].
    eexists. rewrite <- !app_assoc. reflexivity.
  - unfold report. rewrite Hd. reflexivity.
  - destruct (report_parses env error v Henv Herr Hv) as (text & Hs & _ & Hp).
    exists text, (strip (report env error v)).
    assert (Hprops : exists props,
      get (lit "error") (strip (report env error v)) = VObject props
      /\ assoc (lit "digest") props = None).
    { unfold report. rewrite Hd. destruct (stack error); eexists; split; reflexivity. }
    destruct Hprops as (props & H1 & H2). by exists props.
Qed.

Lemma digest_absent_witness :
  digest sample_error = None
  /\ (wf_env sample_env /\ wf_error sample_error /\ wf_view sample_view)
  /\ get (lit "digest") (get (lit "error") (report sample_env sample_error sample_view))
     = VUndefined.
Proof.
  split; [reflexivity|]. split; [exact sample_wf|].
  exact (proj1 (proj2 (digest_absent sample_env sample_error sample_view eq_refl
           (proj1 sample_wf) (proj1 (proj2 sample_wf)) (proj2 (proj2 sample_wf))))).
Defined.

(** C9. With an empty user report the issue body carries the default
    text in its user report section, while the report for download has
    the empty string in [userReport], also after serialising and
    parsing it. *)
Theorem empty_user_report :
  forall env error v,
    userReport v = [] -> wf_env env -> wf_error error -> wf_view v ->
    (exists rest,
        issue_body env error v
        = body_to_digest error
            ++ lit "**Digest:** " ++ or_else (digest error) (lit "N/A") ++ nl ++ nl
            ++ lit "**User Report:**" ++ nl
            ++ lit "No additional information provided" ++ nl ++ rest)
    /\ get (lit "userReport") (report env error v) = VString []
    /\ exists text parsed,
         JSON_stringify (report env error v) 2 = Some text
         /\ JSON_parse text = Some parsed
         /\ get (lit "userReport") parsed = VString [].
Proof.
  intros env error v Hu Henv Herr Hv. split; [|split].
  - unfold issue_body, body_to_digest. rewrite Hu. cbn [or_else].
    eexists. rewrite <- !app_assoc. reflexivity.
  - unfold report. rewrite Hu. reflexivity.
  - destruct (report_parses env error v Henv Herr Hv) as (text & Hs & _ & Hp).
    exists text, (strip (report env error v)). split; [done|]. split; [done|].
    unfold report. rewrite Hu. by destruct (stack error), (digest error).
Qed.

Lemma empty_user_report_witness :
  userReport sample_view = []
  /\ (wf_env sample_env /\ wf_error sample_error /\ wf_view sample_view)
  /\ get (lit "userReport") (report sample_env sample_error sample_view) = VString [].
Proof.
  split; [reflexivity|]. split; [exact sample_wf|].
  exact (proj1 (proj2 (empty_user_report sample_env sample_error sample_view eq_refl
           (proj1 sample_wf) (proj1 (proj2 sample_wf)) (proj2 (proj2 sample_wf))))).
Defined.

Lemma wf_ToString (o : option jsstring) : on_option wf_string o -> wf_string (ToString o).
Proof. destruct o; cbn; [auto|intros _; apply (wf_lit "undefined")]. Qed.

Lemma wf_issue_title (error : ErrorT) : wf_error error -> wf_string (issue_title error).
Proof. intros (_ & Hm & _). apply Forall_app. split; [apply wf_lit|done]. Qed.

Lemma paired_issue_title (error : ErrorT) : paired_error error -> paired (issue_title error).
Proof. intros (_ & Hm & _). apply paired_app; [apply paired_lit|done]. Qed.

Lemma wf_issue_body (env : Env) (error : ErrorT) (v : View) :
  wf_env env -> wf_error error -> wf_view v -> wf_string (issue_body env error v).
Proof.
  intros (Hiso & Hua & Hhref) (Hname & Hmsg & Hstack & Hdigest) (Hur & _).
  unfold issue_body, wf_string.
  repeat (apply Forall_app; split);
    try apply wf_lit; try apply (wf_lit (String "010" EmptyString)); try done.
  - apply wf_or_else; [done|apply wf_lit].
  - apply (wf_or_else (Some (userReport v))); [done|apply wf_lit].
  - by apply wf_ToString.
  - destruct (truthy (screenshot v)); apply wf_lit.
Qed.

Lemma paired_issue_body (env : Env) (error : ErrorT) (v : View) :
  paired_env env -> paired_error error -> paired (userReport v) ->
  paired (issue_body env error v).
Proof.
  intros (Hiso & Hua & Hhref) (Hname & Hmsg & Hstack & Hdigest) Hur.
  unfold issue_body.
  repeat (apply paired_app);
    try apply paired_lit; try apply (paired_lit (String "010" EmptyString)); try done.
  - apply paired_or_else; [done|apply paired_lit].
  - apply (paired_or_else (Some (userReport v))); [done|apply paired_lit].
  - by apply paired_ToString.
  - destruct (truthy (screenshot v)); apply paired_lit.
Qed.

(** What [createGithubIssue] opens when every string is well-formed
    UTF-16: both parameters of the URL decode to the texts they were
    made from. *)
Lemma issue_url_decodes (env : Env) (error : ErrorT) (v : View) :
  wf_env env -> wf_error error -> wf_view v ->
  paired_env env -> paired_error error -> paired (userReport v) ->
  exists url title body,
    issue_url env error v = Normal url
    /\ query_param (lit "title") url = Some title
    /\ decodeURIComponent title = Some (issue_title error)
    /\ query_param (lit "body") url = Some body
    /\ decodeURIComponent body = Some (issue_body env error v).
Proof.
  intros Henv Herr Hv Penv Perr Pv. unfold issue_url, encodeURIComponent.
  destruct (Encode_isWellFormed _ (paired_issue_title error Perr)) as [title Ht].
  destruct (Encode_isWellFormed _ (paired_issue_body env error v Penv Perr Pv))
    as [body Hb].
  rewrite Ht, Hb. exists (githubUrl title body), title, body.
  destruct (query_param_githubUrl title body) as [Q1 Q2];
    [by eapply Encode_no_delimiter..|].
  repeat split; try done.
  - apply Decode_Encode; [by apply wf_issue_title|done].
  - apply Decode_Encode; [by apply wf_issue_body|done].
Qed.

(** C5 as stated fails: for a message with an unpaired surrogate
    [encodeURIComponent] throws and there is no URL. *)
Lemma issue_url_unpaired_surrogate :
  ~ (forall env error v,
        exists url enc body,
          issue_url env error v = Normal url
          /\ query_param (lit "body") url = Some enc
          /\ decodeURIComponent enc = Some body
          /\ contains (message error) body).
Proof.
  intros H.
  destruct (H sample_env (mkError (lit "Error") [0xD800] None None) sample_view)
    as (url & _ & _ & Hurl & _).
  vm_compute in Hurl. discriminate Hurl.
Qed.

(** C5, amended. When the strings of the error, the user report and the
    environment are well-formed UTF-16, [createGithubIssue] opens a URL
    whose body parameter decodes to the rendered template, and that
    text holds the error message and the stack trace unchanged. *)
Theorem issue_body_decodes :
  forall env error v,
    wf_env env -> wf_error error -> wf_view v ->
    paired_env env -> paired_error error -> paired (userReport v) ->
    exists url enc,
      (forall b, createGithubIssue env error v b
                 = Normal (window_open url (lit "_blank") b))
      /\ query_param (lit "body") url = Some enc
      /\ decodeURIComponent enc = Some (issue_body env error v)
      /\ contains (message error) (issue_body env error v)
      /\ on_option (fun s => contains s (issue_body env error v)) (stack error).
Proof.
  intros env error v Henv Herr Hv Penv Perr Pv.
  destruct (issue_url_decodes env error v Henv Herr Hv Penv Perr Pv)
    as (url & title & body & Hurl & _ & _ & Hq & Hd).
  exists url, body. split; [|split; [done|split; [done|split]]].
  - intros b. unfold createGithubIssue. by rewrite Hurl.
  - unfold contains, issue_body.
    exists (lit "## Error Report" ++ nl ++ nl ++ lit "**Error Message:** ").
    eexists. rewrite <- !app_assoc. reflexivity.
  - destruct (stack error) as [s|] eqn:Hs; [|done]. cbn [on_option].
    unfold contains, issue_body. rewrite Hs. cbn [ToString default].
    exists (lit "## Error Report" ++ nl ++ nl
            ++ lit "**Error Message:** " ++ message error ++ nl ++ nl
            ++ lit "**Error Type:** " ++ name error ++ nl ++ nl
            ++ lit "**Digest:** " ++ or_else (digest error) (lit "N/A") ++ nl ++ nl
            ++ lit "**User Report:**" ++ nl
            ++ or_else (Some (userReport v)) (lit "No additional information provided")
            ++ nl ++ nl ++ lit "**Stack Trace:**" ++ nl ++ lit "```" ++ nl).
    eexists. rewrite <- !app_assoc. reflexivity.
Qed.

Lemma sample_paired :
  paired_env sample_env /\ paired_error sample_error /\ paired (userReport sample_view).
Proof. repeat split; try apply paired_lit. Qed.

Lemma issue_body_decodes_witness :
  (wf_env sample_env /\ wf_error sample_error /\ wf_view sample_view)
  /\ (paired_env sample_env /\ paired_error sample_error
      /\ paired (userReport sample_view))
  /\ exists url enc,
       query_param (lit "body") url = Some enc
       /\ decodeURIComponent enc
          = Some (issue_body sample_env sample_error sample_view).
Proof.
  split; [exact sample_wf|]. split; [exact sample_paired|].
  destruct (issue_body_decodes sample_env sample_error sample_view
              (proj1 sample_wf) (proj1 (proj2 sample_wf)) (proj2 (proj2 sample_wf))
              (proj1 sample_paired) (proj1 (proj2 sample_paired))
              (proj2 (proj2 sample_paired)))
    as (url & enc & _ & H1 & H2 & _).
  by exists url, enc.
Defined.

(** C6 as stated fails: the title is the message after the text
    [Error: ]. *)
Lemma issue_title_not_message :
  ~ (forall env error v url enc,
        issue_url env error v = Normal url ->
        query_param (lit "title") url = Some enc ->
        decodeURIComponent enc = Some (message error)).
Proof.
  intros H.
  destruct (issue_url_decodes sample_env sample_error sample_view
              (proj1 sample_wf) (proj1 (proj2 sample_wf)) (proj2 (proj2 sample_wf))
              (proj1 sample_paired) (proj1 (proj2 sample_paired))
              (proj2 (proj2 sample_paired)))
    as (url & title & _ & Hurl & Hq & Hd & _).
  specialize (H _ _ _ _ _ Hurl Hq). rewrite Hd in H. discriminate H.
Qed.

(** C6, amended. When the strings of the error, the user report and the
    environment are well-formed UTF-16, the title parameter of the URL
    that [createGithubIssue] opens decodes to [Error: ] followed by the
    error message. *)
Theorem issue_title_decodes :
  forall env error v,
    wf_env env -> wf_error error -> wf_view v ->
    paired_env env -> paired_error error -> paired (userReport v) ->
    exists url enc,
      (forall b, createGithubIssue env error v b
                 = Normal (window_open url (lit "_blank") b))
      /\ query_param (lit "title") url = Some enc
      /\ decodeURIComponent enc = Some (lit "Error: " ++ message error).
Proof.
  intros env error v Henv Herr Hv Penv Perr Pv.
  destruct (issue_url_decodes env error v Henv Herr Hv Penv Perr Pv)
    as (url & title & body & Hurl & Hq & Hd & _).
  exists url, title. split; [|done].
  intros b. unfold createGithubIssue. by rewrite Hurl.
Qed.

Lemma issue_title_decodes_witness :
  (wf_env sample_env /\ wf_error sample_error /\ wf_view sample_view)
  /\ (paired_env sample_env /\ paired_error sample_error
      /\ paired (userReport sample_view))
  /\ exists url enc,
       query_param (lit "title") url = Some enc
       /\ decodeURIComponent enc = Some (lit "Error: boom").
Proof.
  split; [exact sample_wf|]. split; [exact sample_paired|].
  destruct (issue_title_decodes sample_env sample_error sample_view
              (proj1 sample_wf) (proj1 (proj2 sample_wf)) (proj2 (proj2 sample_wf))
              (proj1 sample_paired) (proj1 (proj2 sample_paired))
              (proj2 (proj2 sample_paired)))
    as (url & enc & _ & H1 & H2).
  by exists url, enc.
Defined.

End HandlerFacts.

(** ** The toolbar, click after click *)

Section ToolbarFacts.
Import Inserter Screen.

Lemma clamp_bounds (len x : Z) : 0 <= len -> 0 <= clamp len x <= len.
Proof. unfold clamp. lia. Qed.

Lemma clamp_mono (len x y : Z) : x <= y -> clamp len x <= clamp len y.
Proof. unfold clamp. lia. Qed.

Lemma substring_head (buf : jsstring) (s : Z) :
  substring buf 0 s = take (Z.to_nat (clamp (Z.of_nat (length buf)) s)) buf.
Proof.
  unfold substring. set (len := Z.of_nat (length buf)).
  pose proof (clamp_bounds len s ltac:(lia)).
  replace (clamp len 0) with 0 by (unfold clamp; lia).
  rewrite Z.min_l, Z.max_r by lia. rewrite Z.sub_0_r. reflexivity.
Qed.

Lemma substring_middle (buf : jsstring) (s e : Z) :
  s <= e ->
  substring buf s e
  = take (Z.to_nat (clamp (Z.of_nat (length buf)) e - clamp (Z.of_nat (length buf)) s))
      (drop (Z.to_nat (clamp (Z.of_nat (length buf)) s)) buf).
Proof.
  intros H. unfold substring. set (len := Z.of_nat (length buf)).
  pose proof (clamp_mono len s e H).
  rewrite Z.min_l, Z.max_r by lia. reflexivity.
Qed.

Lemma substring_tail (buf : jsstring) (e : Z) :
  substring_from buf e = drop (Z.to_nat (clamp (Z.of_nat (length buf)) e)) buf.
Proof.
  unfold substring_from, substring. set (len := Z.of_nat (length buf)).
  pose proof (clamp_bounds len e ltac:(lia)).
  replace (clamp len len) with len by (unfold clamp; lia).
  rewrite Z.min_l, Z.max_r by lia.
  apply take_ge. rewrite length_drop. lia.
Qed.

(** X1. For every style and every selection with start <= end, in range
    or not, the three calls of [substring] cut the buffer into three
    parts, at the two positions clamped to the buffer, and the new
    buffer is the first part, the formatted second part and the third
    part: nothing outside the selection is lost or repeated. *)
Theorem insertFormatting_partition :
  forall (format : jsstring) (v : View) (s e : Z),
    s <= e ->
    exists pre sel suf : jsstring,
      userReport v = pre ++ sel ++ suf
      /\ userReport (fst (insertFormatting format (Some (mkTextArea s e)) v))
         = pre ++ formattedText format sel ++ suf
      /\ Z.of_nat (length pre) = clamp (Z.of_nat (length (userReport v))) s
      /\ Z.of_nat (length (pre ++ sel)) = clamp (Z.of_nat (length (userReport v))) e.
Proof.
  intros format v s e H. set (buf := userReport v).
  exists (substring buf 0 s), (substring buf s e), (substring_from buf e).
  cbn [insertFormatting fst userReport setUserReport selectionStart selectionEnd].
  fold buf. split; [|split; [reflexivity|]].
  - rewrite substring_head, (substring_middle buf s e H), substring_tail.
    set (len := Z.of_nat (length buf)).
    pose proof (clamp_bounds len s ltac:(lia)) as Ha.
    pose proof (clamp_bounds len e ltac:(lia)) as Hb.
    pose proof (clamp_mono len s e H) as Hab.
    set (a := clamp len s) in *. set (b := clamp len e) in *.
    rewrite <- (take_drop (Z.to_nat a) buf) at 1. f_equal.
    rewrite <- (take_drop (Z.to_nat (b - a)) (drop (Z.to_nat a) buf)) at 1. f_equal.
    rewrite drop_drop. f_equal. lia.
  - rewrite substring_head, (substring_middle buf s e H).
    set (len := Z.of_nat (length buf)).
    pose proof (clamp_bounds len s ltac:(lia)) as Ha.
    pose proof (clamp_bounds len e ltac:(lia)) as Hb.
    pose proof (clamp_mono len s e H) as Hab.
    rewrite length_app, !length_take, length_drop. fold len in Ha, Hb |- *. lia.
Qed.

Lemma insertFormatting_partition_witness :
  5 <= 40
  /\ exists pre sel suf : jsstring,
       lit "hello world" = pre ++ sel ++ suf
       /\ userReport (fst (insertFormatting (lit "bold") (Some (mkTextArea 5 40))
                             (mkView false false None (lit "hello world"))))
          = pre ++ formattedText (lit "bold") sel ++ suf.
Proof.
  split; [lia|].
  destruct (insertFormatting_partition (lit "bold")
              (mkView false false None (lit "hello world")) 5 40 ltac:(lia))
    as (pre & sel & suf & H1 & H2 & _).
  by exists pre, sel, suf.
Defined.

Lemma length_spec_transform (st : Style) (S : jsstring) :
  length (spec_transform st S) = (overhead st + length S)%nat.
Proof. destruct st; cbn [spec_transform overhead]; rewrite ?length_app; cbn; lia. Qed.

Lemma in_range_lengths (buf : jsstring) (s e : Z) :
  in_range buf s e ->
  length (prefix_of buf s) = Z.to_nat s
  /\ length (selected_of buf s e) = Z.to_nat (e - s)
  /\ length (suffix_of buf e) = (length buf - Z.to_nat e)%nat.
Proof.
  intros (H0 & H1 & H2). unfold prefix_of, selected_of, suffix_of.
  rewrite !length_take, !length_drop. lia.
Qed.

(** X2. With a recognised style and the selection in range the buffer
    grows by the length of the delimiters, 4 for bold and 2 for italic,
    code and list, whatever is selected. *)
Theorem insertFormatting_length :
  forall (st : Style) (v : View) (s e : Z),
    in_range (userReport v) s e ->
    length (userReport (fst (insertFormatting (style_name st)
                               (Some (mkTextArea s e)) v)))
    = (length (userReport v) + overhead st)%nat.
Proof.
  intros st v s e Hr. rewrite (insertFormatting_in_range _ _ _ _ Hr).
  cbn [fst userReport setUserReport]. rewrite formattedText_style.
  destruct (in_range_lengths _ _ _ Hr) as (Hp & Hs & Hx).
  destruct Hr as (H0 & H1 & H2).
  rewrite !length_app, length_spec_transform, Hp, Hs, Hx. lia.
Qed.

Lemma insertFormatting_length_witness :
  in_range (lit "hello world") 0 5
  /\ length (userReport (fst (insertFormatting (lit "bold") (Some (mkTextArea 0 5))
                                (mkView false false None (lit "hello world")))))
     = 15%nat.
Proof.
  assert (Hr : in_range (lit "hello world") 0 5) by (unfold in_range; cbn; lia).
  split; [exact Hr|].
  exact (insertFormatting_length Bold (mkView false false None (lit "hello world"))
           0 5 Hr).
Defined.

Lemma spec_transform_opening (st : Style) (S : jsstring) :
  exists o c : jsstring,
    spec_transform st S = o ++ S ++ c /\ length o = opening st.
Proof.
  destruct st; cbn [spec_transform opening].
  - by exists (lit "**"), (lit "**").
  - by exists (lit "*"), (lit "*").
  - by exists (lit "`"), (lit "`").
  - exists (lit "- "), []. by rewrite app_nil_r.
Qed.

(** X3. With a recognised style and the selection in range the selected
    text stands unchanged in the new buffer, right after the opening
    delimiter: reading the new buffer from [start + opening] to
    [end + opening] gives the old selection. *)
Theorem insertFormatting_keeps_selection :
  forall (st : Style) (v : View) (s e : Z),
    in_range (userReport v) s e ->
    substring (userReport (fst (insertFormatting (style_name st)
                                  (Some (mkTextArea s e)) v)))
      (s + Z.of_nat (opening st)) (e + Z.of_nat (opening st))
    = substring (userReport v) s e.
Proof.
  intros st v s e Hr. rewrite (substring_in_range _ _ _ Hr).
  rewrite (insertFormatting_in_range _ _ _ _ Hr).
  cbn [fst userReport setUserReport]. rewrite formattedText_style.
  destruct (spec_transform_opening st (selected_of (userReport v) s e))
    as (o & c & -> & Ho).
  destruct (in_range_lengths _ _ _ Hr) as (Hp & Hs & Hx).
  destruct Hr as (H0 & H1 & H2).
  set (S := selected_of (userReport v) s e) in *.
  set (P := prefix_of (userReport v) s) in *.
  set (X := suffix_of (userReport v) e) in *.
  rewrite substring_in_range.
  2:{ unfold in_range. rewrite !length_app. lia. }
  unfold selected_of at 1.
  replace (P ++ (o ++ S ++ c) ++ X) with ((P ++ o) ++ S ++ c ++ X)
    by (by rewrite <- !app_assoc).
  rewrite drop_app_length'. 2:{ rewrite length_app. lia. }
  rewrite take_app_length'; [done|lia].
Qed.

Lemma insertFormatting_keeps_selection_witness :
  in_range (lit "hello world") 6 11
  /\ substring (userReport (fst (insertFormatting (lit "list")
                  (Some (mkTextArea 6 11))
                  (mkView false false None (lit "hello world"))))) 8 13
     = lit "world".
Proof.
  assert (Hr : in_range (lit "hello world") 6 11) by (unfold in_range; cbn; lia).
  split; [exact Hr|].
  exact (insertFormatting_keeps_selection ListItem
           (mkView false false None (lit "hello world")) 6 11 Hr).
Defined.

Lemma setSelectionRange_inside (len pos : Z) :
  0 <= pos <= len -> len < 2 ^ 32 ->
  setSelectionRange len pos pos = mkTextArea pos pos.
Proof.
  intros H Hl. unfold setSelectionRange, ToUint32.
  rewrite Z.mod_small by lia. rewrite Z.min_l by lia.
  by rewrite Z.ltb_irrefl.
Qed.

Lemma click_format_in_range (format : jsstring) (v : View) (s e : Z) :
  in_range (userReport v) s e ->
  let F := formattedText format (selected_of (userReport v) s e) in
  let new := prefix_of (userReport v) s ++ F ++ suffix_of (userReport v) e in
  Z.of_nat (length new) < 2 ^ 32 ->
  click_format format (Some (mkTextArea s e)) v
  = (setUserReport new v,
     Some (mkTextArea (s + Z.of_nat (length F)) (s + Z.of_nat (length F)))).
Proof.
  intros Hr F new Hlen. unfold click_format.
  rewrite (insertFormatting_in_range _ _ _ _ Hr). fold F. fold new.
  cbn [userReport setUserReport].
  destruct (in_range_lengths _ _ _ Hr) as (Hp & _ & _).
  destruct Hr as (H0 & H1 & H2).
  rewrite setSelectionRange_inside; [done| |done].
  unfold new. rewrite !length_app, Hp. lia.
Qed.

(** X4. After a click on the toolbar with the selection in range, the
    deferred [setSelectionRange] leaves an empty selection that is not
    clamped: what stands before it in the new buffer is the old prefix
    and the inserted text, and what stands after it is the old
    suffix. *)
Theorem cursor_follows_inserted_text :
  forall (format : jsstring) (v : View) (s e : Z),
    in_range (userReport v) s e ->
    Z.of_nat (length (userReport
                (fst (insertFormatting format (Some (mkTextArea s e)) v)))) < 2 ^ 32 ->
    exists (v' : View) (pos : Z),
      click_format format (Some (mkTextArea s e)) v = (v', Some (mkTextArea pos pos))
      /\ substring (userReport v') 0 pos
         = substring (userReport v) 0 s
             ++ formattedText format (substring (userReport v) s e)
      /\ substring_from (userReport v') pos = substring_from (userReport v) e.
Proof.
  intros format v s e Hr Hlen.
  rewrite (insertFormatting_in_range _ _ _ _ Hr) in Hlen.
  cbn [fst userReport setUserReport] in Hlen.
  rewrite (click_format_in_range _ _ _ _ Hr Hlen).
  eexists _, _. split; [reflexivity|]. cbn [userReport setUserReport].
  destruct (in_range_lengths _ _ _ Hr) as (Hp & _ & _).
  pose proof Hr as (H0 & H1 & H2).
  rewrite (substring_in_range _ _ _ Hr).
  rewrite (substring_prefix (userReport v) s), (substring_suffix (userReport v) e) by lia.
  set (F := formattedText format (selected_of (userReport v) s e)) in *.
  set (P := prefix_of (userReport v) s) in *.
  set (X := suffix_of (userReport v) e) in *.
  assert (Hpos : Z.to_nat (s + Z.of_nat (length F)) = length (P ++ F)).
  { rewrite length_app. lia. }
  rewrite substring_prefix, substring_suffix; try (rewrite !length_app; lia).
  unfold prefix_of, suffix_of. rewrite Hpos. rewrite (app_assoc P F X).
  by rewrite take_app_length, drop_app_length.
Qed.

Lemma cursor_follows_inserted_text_witness :
  in_range (lit "hello world") 0 5
  /\ exists (v' : View) (pos : Z),
       click_format (lit "bold") (Some (mkTextArea 0 5))
         (mkView false false None (lit "hello world"))
       = (v', Some (mkTextArea pos pos))
       /\ substring (userReport v') 0 pos = lit "**hello**"
       /\ substring_from (userReport v') pos = lit " world".
Proof.
  assert (Hr : in_range (lit "hello world") 0 5) by (unfold in_range; cbn; lia).
  split; [exact Hr|].
  exact (cursor_follows_inserted_text (lit "bold")
           (mkView false false None (lit "hello world")) 0 5 Hr
           ltac:(by vm_compute)).
Defined.

(** X5. Two clicks on the toolbar in a row: the second one works on the
    empty selection the first one left, so it puts its bare delimiters
    right after the text the first one inserted, and the cursor after
    both. *)
Theorem click_format_twice :
  forall (f1 f2 : jsstring) (v : View) (s e : Z),
    in_range (userReport v) s e ->
    let F1 := formattedText f1 (substring (userReport v) s e) in
    let F2 := formattedText f2 [] in
    let new := substring (userReport v) 0 s ++ F1 ++ F2
                 ++ substring_from (userReport v) e in
    Z.of_nat (length new) < 2 ^ 32 ->
    let '(v1, ta1) := click_format f1 (Some (mkTextArea s e)) v in
    click_format f2 ta1 v1
    = (setUserReport new v,
       Some (mkTextArea (s + Z.of_nat (length (F1 ++ F2)))
                        (s + Z.of_nat (length (F1 ++ F2))))).
Proof.
  intros f1 f2 v s e Hr. pose proof Hr as (H0 & H1 & H2).
  rewrite (substring_in_range _ _ _ Hr).
  rewrite (substring_prefix (userReport v) s), (substring_suffix (userReport v) e) by lia.
  intros F1 F2 new Hlen.
  destruct (in_range_lengths _ _ _ Hr) as (Hp & _ & Hx).
  set (P := prefix_of (userReport v) s) in *.
  set (X := suffix_of (userReport v) e) in *.
  assert (Hn : length new = (length P + length F1 + length F2 + length X)%nat).
  { unfold new. rewrite !length_app. lia. }
  rewrite (click_format_in_range f1 v s e Hr). 2:{ fold P X F1. rewrite !length_app. lia. }
  fold P X F1.
  set (v1 := setUserReport (P ++ F1 ++ X) v).
  set (pos := s + Z.of_nat (length F1)).
  assert (Hpos : Z.to_nat pos = length (P ++ F1)).
  { unfold pos. rewrite length_app. lia. }
  assert (Hr1 : in_range (userReport v1) pos pos).
  { unfold in_range, v1, pos. cbn [userReport setUserReport]. rewrite !length_app. lia. }
  assert (Hsel : selected_of (userReport v1) pos pos = []).
  { unfold selected_of. by rewrite Z.sub_diag. }
  assert (Hpre : prefix_of (userReport v1) pos = P ++ F1).
  { unfold prefix_of, v1. cbn [userReport setUserReport].
    rewrite Hpos, (app_assoc P F1 X). apply take_app_length. }
  assert (Hsuf : suffix_of (userReport v1) pos = X).
  { unfold suffix_of, v1. cbn [userReport setUserReport].
    rewrite Hpos, (app_assoc P F1 X). apply drop_app_length. }
  rewrite (click_format_in_range f2 v1 pos pos Hr1); rewrite Hsel, Hpre, Hsuf.
  - fold F2. unfold new, v1, pos, setUserReport. cbn [showStackTrace copied screenshot].
    rewrite <- !app_assoc, length_app. do 3 f_equal; lia.
  - fold F2. rewrite <- app_assoc. fold new. exact Hlen.
Qed.

Lemma click_format_twice_witness :
  in_range (lit "hello world") 0 5
  /\ click_format (lit "code") (Some (mkTextArea 9 9))
       (mkView false false None (lit "**hello** world"))
     = (mkView false false None (lit "**hello**`` world"), Some (mkTextArea 11 11)).
Proof.
  assert (Hr : in_range (lit "hello world") 0 5) by (unfold in_range; cbn; lia).
  split; [exact Hr|].
  exact (click_format_twice (lit "bold") (lit "code")
           (mkView false false None (lit "hello world")) 0 5 Hr ltac:(by vm_compute)).
Defined.

End ToolbarFacts.

(** ** The copy button and the screenshot *)

Section ScreenFacts.
Import Json Uri Handlers Screen.
Local Open Scope N_scope.

(** X6. A copy that the clipboard accepts writes the summary to the
    clipboard, leaves the blob URL store, the saved files and the opened
    windows alone, shows [Copied!] and sets one timer of 2000 ms; when
    that timer runs the label is [Copy] again and the view is the one
    before the click, if [copied] was off then. *)
Theorem copy_indicator_expires :
  forall (error : ErrorT) (v : View) (b : Browser),
    clipboard_allowed b = true ->
    exists b' : Browser,
      click_copy error (v, b, []) = (setCopied true v, b', [mkTimer 2000 false])
      /\ clipboard b' = Some (copy_text error)
      /\ (blob_urls b', downloads b', windows b')
         = (blob_urls b, downloads b, windows b)
      /\ copy_label (setCopied true v) = lit "Copied!"
      /\ timeout (click_copy error (v, b, [])) = (setCopied false v, b', [])
      /\ copy_label (setCopied false v) = lit "Copy"
      /\ (copied v = false -> setCopied false v = v).
Proof.
  intros error v b Hb. unfold click_copy, copyToClipboard, writeText. rewrite Hb.
  eexists. repeat split.
  by intros Hc; destruct v; cbn in *; subst.
Qed.

Lemma copy_indicator_expires_witness :
  clipboard_allowed sample_browser_allowed = true
  /\ exists b' : Browser,
       timeout (click_copy sample_error (sample_view, sample_browser_allowed, []))
       = (sample_view, b', [])
       /\ clipboard b' = Some (copy_text sample_error).
Proof.
  split; [reflexivity|].
  destruct (copy_indicator_expires sample_error sample_view
              sample_browser_allowed eq_refl)
    as (b' & _ & Hc & _ & _ & Ht & _ & _).
  exists b'. by split.
Defined.

(** X7. Two accepted copies in a row leave two timers. The first of
    them to run, the one of the first click, turns the indicator off
    while the timer of the second click is still pending. *)
Theorem second_copy_indicator_cut_short :
  forall (error : ErrorT) (v : View) (b : Browser),
    clipboard_allowed b = true ->
    exists (b' : Browser),
      click_copy error (click_copy error (v, b, []))
      = (setCopied true v, b', [mkTimer 2000 false; mkTimer 2000 false])
      /\ timeout (click_copy error (click_copy error (v, b, [])))
         = (setCopied false v, b', [mkTimer 2000 false])
      /\ copy_label (setCopied false v) = lit "Copy".
Proof.
  intros error v b Hb. unfold click_copy, copyToClipboard, writeText.
  rewrite Hb. cbn [clipboard_allowed].
  eexists. by repeat split.
Qed.

Lemma second_copy_indicator_cut_short_witness :
  clipboard_allowed sample_browser_allowed = true
  /\ exists b' : Browser,
       timeout (click_copy sample_error
                  (click_copy sample_error
                     (sample_view, sample_browser_allowed, [])))
       = (sample_view, b', [mkTimer 2000 false]).
Proof.
  split; [reflexivity|].
  destruct (second_copy_indicator_cut_short sample_error sample_view
              sample_browser_allowed eq_refl) as (b' & _ & Ht & _).
  by exists b'.
Defined.

Lemma issue_body_last_line (env : Env) (error : ErrorT) (v : View) :
  exists pre, issue_body env error v = pre ++ screenshot_line v.
Proof.
  unfold issue_body. fold (screenshot_line v).
  rewrite !app_assoc. by eexists.
Qed.

(** X8. The report for download and the issue body agree on the
    screenshot. The body ends with the screenshot line; either the
    state holds no screenshot (or the empty string), the report says
    [No screenshot captured] and the line says [Not captured], or the
    state holds a non-empty string, the report carries it and the line
    says [Attached separately]. *)
Theorem screenshot_status_agrees :
  forall (env : Env) (error : ErrorT) (v : View),
    (exists pre, issue_body env error v = pre ++ screenshot_line v)
    /\ ((truthy (screenshot v) = false
         /\ get (lit "screenshot") (report env error v)
            = VString (lit "No screenshot captured")
         /\ screenshot_line v = lit "**Screenshot:** Not captured")
        \/ (exists s, screenshot v = Some s /\ s <> []
            /\ get (lit "screenshot") (report env error v) = VString s
            /\ screenshot_line v = lit "**Screenshot:** Attached separately")).
Proof.
  intros env error v. split; [apply issue_body_last_line|].
  unfold screenshot_line, report.
  destruct (screenshot v) as [[|c r]|] eqn:E; cbn [truthy or_else].
  - by left.
  - right. exists (c :: r). by repeat split.
  - by left.
Qed.

(** X9. Where [html2canvas] is missing, [captureScreenshot] stores the
    simulated data URL and nothing else of the view changes: the report
    then carries that URL and the issue body ends with [Attached
    separately]. Where [html2canvas] is present the view is left as it
    is, so no screenshot is ever stored. *)
Theorem captureScreenshot_outcome :
  forall (env : Env) (error : ErrorT) (v : View),
    (let v1 := fst (captureScreenshot false v) in
     get (lit "screenshot") (report env error v1)
     = VString (lit "data:image/png;base64,simulated-screenshot")
     /\ (exists pre, issue_body env error v1
                     = pre ++ lit "**Screenshot:** Attached separately")
     /\ (showStackTrace v1, copied v1, userReport v1)
        = (showStackTrace v, copied v, userReport v))
    /\ fst (captureScreenshot true v) = v.
Proof.
  intros env error v. split; [|reflexivity]. cbn zeta. split; [reflexivity|].
  split; [|reflexivity].
  destruct (issue_body_last_line env error (fst (captureScreenshot false v)))
    as [pre H].
  by exists pre.
Qed.

End ScreenFacts.

(** ** The downloaded file and the edges of the report *)

Section ReportFacts.
Import Json Uri Handlers Screen.
Local Open Scope N_scope.

Lemma undigits_digits (u : Decimal.uint) : undigits (digits u) = Some u.
Proof. induction u as [|u IH|u IH|u IH|u IH|u IH|u IH|u IH|u IH|u IH|u IH];
  cbn [digits undigits]; [done|by rewrite IH..]. Qed.

Lemma strip_prefix_app (p s : jsstring) : strip_prefix p (p ++ s) = Some s.
Proof.
  induction p as [|c p IH]; [by destruct s|].
  cbn [app strip_prefix]. by rewrite N.eqb_refl.
Qed.

Lemma file_time_decimal (n : N) :
  file_time (lit "error-report-" ++ decimal n ++ lit ".json") = Some n.
Proof.
  unfold file_time. rewrite strip_prefix_app, reverse_app, strip_prefix_app.
  rewrite reverse_involutive. unfold decimal. rewrite undigits_digits.
  cbn [option_map]. by rewrite DecimalN.Unsigned.of_to.
Qed.

(** X10. The file saved last by [downloadErrorReport] is named after
    [Date.now()] and holds the report text. The time can be read back
    from the name, so two names are equal exactly when the two times
    are: reports of different milliseconds never share a name, reports
    of the same millisecond do. *)
Theorem report_file_name_time :
  forall (env : Env) (error : ErrorT) (v : View) (b : Browser),
    last (downloads (downloadErrorReport env error v b))
    = Some (report_file_name env, report_text env error v)
    /\ file_time (report_file_name env) = Some (now_millis env)
    /\ (forall env' : Env,
          report_file_name env = report_file_name env'
          <-> now_millis env = now_millis env').
Proof.
  intros env error v b. split; [|split].
  - rewrite downloadErrorReport_browser. cbn [downloads]. apply last_snoc.
  - apply file_time_decimal.
  - intros env'. unfold report_file_name. split; [|by intros ->].
    intros H. apply (f_equal file_time) in H.
    rewrite !file_time_decimal in H. by injection H.
Qed.

(** X12. A digest that is the empty string is falsy: the issue body
    prints [N/A] for it, while the JSON report keeps the empty string
    in [digest]. *)
Theorem empty_digest :
  forall (env : Env) (error : ErrorT) (v : View),
    digest error = Some [] -> wf_env env -> wf_error error -> wf_view v ->
    (exists rest,
        issue_body env error v
        = body_to_digest error ++ lit "**Digest:** N/A" ++ nl ++ rest)
    /\ exists text parsed,
         JSON_stringify (report env error v) 2 = Some text
         /\ JSON_parse text = Some parsed
         /\ get (lit "digest") (get (lit "error") parsed) = VString [].
Proof.
  intros env error v Hd Henv Herr Hv. split.
  - unfold issue_body, body_to_digest. rewrite Hd. cbn [or_else].
    eexists. rewrite <- !app_assoc. reflexivity.
  - destruct (report_parses env error v Henv Herr Hv) as (text & Hs & _ & Hp).
    exists text, (strip (report env error v)). split; [done|]. split; [done|].
    unfold report. rewrite Hd. by destruct (stack error).
Qed.

Lemma empty_digest_witness :
  digest sample_error_empty_digest = Some []
  /\ (wf_env sample_env /\ wf_error sample_error_empty_digest /\ wf_view sample_view)
  /\ exists rest,
       issue_body sample_env sample_error_empty_digest sample_view
       = body_to_digest sample_error_empty_digest
           ++ lit "**Digest:** N/A" ++ nl ++ rest.
Proof.
  set (error := sample_error_empty_digest).
  assert (Hwf : wf_error error).
  { repeat split; try apply wf_lit; constructor. }
  split; [reflexivity|]. split; [split; [apply sample_wf|split; [exact Hwf|apply sample_wf]]|].
  exact (proj1 (empty_digest sample_env error sample_view eq_refl
                  (proj1 sample_wf) Hwf (proj2 (proj2 sample_wf)))).
Defined.

(** X13. For an error without stack the clipboard text and the stack
    section of the issue body read [undefined] in its place, while the
    error object of the JSON report has no [stack] property. *)
Theorem missing_stack :
  forall (env : Env) (error : ErrorT) (v : View),
    stack error = None -> wf_env env -> wf_error error -> wf_view v ->
    copy_text error
    = lit "Error: " ++ message error ++ nl ++ nl ++ lit "Stack Trace:" ++ nl
        ++ lit "undefined"
    /\ contains (lit "**Stack Trace:**" ++ nl ++ lit "```" ++ nl ++ lit "undefined"
                   ++ nl ++ lit "```" ++ nl)
         (issue_body env error v)
    /\ exists text parsed props,
         JSON_stringify (report env error v) 2 = Some text
         /\ JSON_parse text = Some parsed
         /\ get (lit "error") parsed = VObject props
         /\ assoc (lit "stack") props = None
         /\ get (lit "stack") (get (lit "error") parsed) = VUndefined.
Proof.
  intros env error v Hs Henv Herr Hv. split; [|split].
  - unfold copy_text. by rewrite Hs.
  - unfold contains, issue_body. rewrite Hs. cbn [ToString default].
    exists (lit "## Error Report" ++ nl ++ nl
            ++ lit "**Error Message:** " ++ message error ++ nl ++ nl
            ++ lit "**Error Type:** " ++ name error ++ nl ++ nl
            ++ lit "**Digest:** " ++ or_else (digest error) (lit "N/A") ++ nl ++ nl
            ++ lit "**User Report:**" ++ nl
            ++ or_else (Some (userReport v)) (lit "No additional information provided")
            ++ nl ++ nl).
    eexists. rewrite <- !app_assoc. reflexivity.
  - destruct (report_parses env error v Henv Herr Hv) as (text & Hst & _ & Hp).
    exists text, (strip (report env error v)).
    assert (Hprops : exists props,
      get (lit "error") (strip (report env error v)) = VObject props
      /\ assoc (lit "stack") props = None
      /\ get (lit "stack") (get (lit "error") (strip (report env error v)))
         = VUndefined).
    { unfold report. rewrite Hs. destruct (digest error); eexists; repeat split. }
    destruct Hprops as (props & H1 & H2 & H3). by exists props.
Qed.

Lemma missing_stack_witness :
  stack sample_error_bare = None
  /\ (wf_env sample_env /\ wf_error sample_error_bare /\ wf_view sample_view)
  /\ copy_text sample_error_bare
     = lit "Error: boom" ++ nl ++ nl ++ lit "Stack Trace:" ++ nl ++ lit "undefined".
Proof.
  set (error := sample_error_bare).
  assert (Hwf : wf_error error).
  { repeat split; try apply wf_lit; constructor. }
  split; [reflexivity|]. split; [split; [apply sample_wf|split; [exact Hwf|apply sample_wf]]|].
  exact (proj1 (missing_stack sample_env error sample_view eq_refl
                  (proj1 sample_wf) Hwf (proj2 (proj2 sample_wf)))).
Defined.

End ReportFacts.

(** ** Well-formed text and the issue URL *)

Section WellFormedFacts.
Import Json Uri Handlers Screen.
Local Open Scope N_scope.

Lemma isWellFormed_ascii (c : N) (t : jsstring) :
  c < 256 -> isWellFormed (c :: t) = isWellFormed t.
Proof.
  intros Hc. cbn [isWellFormed]. unfold is_lead, is_trail.
  rewrite (proj2 (N.leb_gt 0xD800 c)) by lia.
  rewrite (proj2 (N.leb_gt 0xDC00 c)) by lia. done.
Qed.

Lemma isWellFormed_lit (s : string) (t : jsstring) :
  isWellFormed (lit s ++ t) = isWellFormed t.
Proof.
  induction s as [|a s IH]; [done|]. cbn [lit app].
  rewrite isWellFormed_ascii; [done|]. pose proof (N_ascii_bounded a). lia.
Qed.

Lemma hex_lower_ascii (d : N) : d < 16 -> hex_lower d < 128.
Proof. unfold hex_lower. destruct (N.ltb_spec d 10); lia. Qed.

Lemma isWellFormed_escape (c : N) (t : jsstring) :
  isWellFormed (UnicodeEscape c ++ t) = isWellFormed t.
Proof.
  unfold UnicodeEscape. cbn [app].
  assert (H : forall d, d < 16 -> hex_lower d < 256).
  { intros d Hd. pose proof (hex_lower_ascii d Hd). lia. }
  rewrite !isWellFormed_ascii; try done; try lia; apply H, N.mod_lt; lia.
Qed.

Lemma isWellFormed_quote_unit (c : N) (t : jsstring) :
  is_lead c = false ->
  isWellFormed (quote_unit c ++ t) = isWellFormed t.
Proof.
  intros Hl. unfold quote_unit.
  repeat (case N.eqb_spec; [intros _; cbn [app]; rewrite !isWellFormed_ascii by lia; done
                           | intros _]).
  destruct ((c <? 32) || is_lead c || is_trail c) eqn:E.
  - apply isWellFormed_escape.
  - apply orb_false_elim in E as [_ Ht]. cbn [app isWellFormed].
    by rewrite Hl, Ht.
Qed.

Lemma isWellFormed_quote_chars (s t : jsstring) :
  isWellFormed (quote_chars s ++ t) = isWellFormed t.
Proof.
  revert s. apply (list_ind_pair (fun s => isWellFormed (quote_chars s ++ t) = _)).
  - done.
  - intros c r IH1 IH2. cbn [quote_chars]. destruct (is_lead c) eqn:Hl.
    + destruct r as [|d r'].
      * apply isWellFormed_escape.
      * destruct (is_trail d) eqn:Ht.
        -- cbn [app isWellFormed]. rewrite Hl, Ht. cbn [andb]. by apply (IH2 d r').
        -- rewrite <- app_assoc, isWellFormed_escape. exact IH1.
    + rewrite <- app_assoc, isWellFormed_quote_unit by done. exact IH1.
Qed.

Lemma isWellFormed_Quote (s t : jsstring) :
  isWellFormed (QuoteJSONString s ++ t) = isWellFormed t.
Proof.
  unfold QuoteJSONString. rewrite <- !app_assoc. cbn [app].
  rewrite isWellFormed_ascii by lia. rewrite isWellFormed_quote_chars.
  apply isWellFormed_ascii. lia.
Qed.

Lemma isWellFormed_ws (w t : jsstring) :
  ws_only w -> isWellFormed (w ++ t) = isWellFormed t.
Proof.
  induction 1 as [|c w Hc _ IH]; [done|]. cbn [app].
  rewrite isWellFormed_ascii; [done|].
  unfold is_ws in Hc. repeat (apply orb_prop in Hc as [Hc|Hc]);
    apply N.eqb_eq in Hc; lia.
Qed.

(** Whatever follows the text of a value, the two together are
    well-formed when what follows is. *)
Lemma isWellFormed_serialize (x : value) :
  forall gap indent str t,
    ws_only gap -> ws_only indent ->
    SerializeJSONProperty gap indent x = Some str ->
    isWellFormed (str ++ t) = isWellFormed t.
Proof.
  induction x as [| |b|s|props IH] using value_ind';
    intros gap indent str t Hgap Hind Hser.
  - discriminate Hser.
  - injection Hser as <-. apply (isWellFormed_lit "null").
  - injection Hser as <-.
    destruct b; [apply (isWellFormed_lit "true")|apply (isWellFormed_lit "false")].
  - injection Hser as <-. apply isWellFormed_Quote.
  - assert (Hm : forall sep t', ws_only sep ->
      isWellFormed (join (44 :: sep) (members_of gap (indent ++ gap) props) ++ t')
      = isWellFormed t').
    { intros sep. clear Hser. induction IH as [|[k y] ps Hy _ IHps]; [done|].
      intros t' Hsep. rewrite members_of_cons.
      destruct (SerializeJSONProperty gap (indent ++ gap) y) as [strP|] eqn:E;
        [|by apply IHps].
      cbn [snd] in Hy.
      destruct (decide (members_of gap (indent ++ gap) ps = [])) as [Hn|Hn].
      - rewrite Hn. cbn [join]. rewrite <- !app_assoc, isWellFormed_Quote.
        cbn [app]. rewrite isWellFormed_ascii by lia.
        rewrite isWellFormed_ws by apply ws_only_space.
        apply (Hy gap (indent ++ gap)); [done|by apply Forall_app|done].
      - rewrite join_cons_ne by done. rewrite <- !app_assoc, isWellFormed_Quote.
        cbn [app]. rewrite isWellFormed_ascii by lia.
        rewrite isWellFormed_ws by apply ws_only_space.
        rewrite (Hy gap (indent ++ gap) strP); [|done|by apply Forall_app|done].
        rewrite isWellFormed_ascii by lia. rewrite isWellFormed_ws by done.
        by apply IHps. }
    destruct (decide (members_of gap (indent ++ gap) props = [])) as [Hn|Hn].
    + rewrite serialize_object_nil in Hser by done. injection Hser as <-.
      cbn [app]. rewrite !isWellFormed_ascii by lia. done.
    + rewrite serialize_object_cons in Hser by done. injection Hser as <-.
      rewrite <- app_comm_cons, <- !app_assoc. rewrite isWellFormed_ascii by lia.
      rewrite isWellFormed_ws by by apply ws_only_lead.
      rewrite Hm by by apply ws_only_lead.
      rewrite isWellFormed_ws by by apply ws_only_close.
      cbn [app]. apply isWellFormed_ascii. lia.
Qed.

(** X11. The JSON text of the report is well-formed UTF-16 for every
    error, view and environment, also when their strings hold unpaired
    surrogates: those are written as [\u] escapes. *)
Theorem report_text_well_formed :
  forall (env : Env) (error : ErrorT) (v : View),
    isWellFormed (report_text env error v) = true.
Proof.
  intros env error v. unfold report_text, JSON_stringify.
  destruct (SerializeJSONProperty _ _ _) as [str|] eqn:E; [|done].
  change (isWellFormed str = true). rewrite <- (app_nil_r str).
  assert (Hgap : ws_only (replicate (Nat.min 2 10) 32)) by by repeat constructor.
  by rewrite (isWellFormed_serialize _ _ _ _ [] Hgap (Forall_nil_2 _) E).
Qed.

(** A well-formed text in front of a character that is not a trail
    surrogate is well-formed by itself. *)
Lemma isWellFormed_app_inv (a : jsstring) (c : N) (b : jsstring) :
  is_trail c = false ->
  isWellFormed (a ++ c :: b) = true ->
  isWellFormed a = true /\ isWellFormed (c :: b) = true.
Proof.
  intros Hc. revert a.
  apply (list_ind_pair (fun a => isWellFormed (a ++ c :: b) = true -> _)).
  - done.
  - intros x r IH1 IH2. cbn [app isWellFormed]. destruct (is_lead x).
    + destruct r as [|d r']; cbn [app].
      * rewrite Hc. done.
      * intros [Hd Hr]%andb_prop. rewrite Hd. by apply (IH2 d r').
    + intros [Hx Hr]%andb_prop. rewrite Hx. by apply IH1.
Qed.

Lemma isWellFormed_before_nl (a b : jsstring) :
  isWellFormed (a ++ nl ++ b) = true ->
  isWellFormed a = true /\ isWellFormed b = true.
Proof.
  intros H. apply isWellFormed_app_inv in H as [Ha Hb]; [|done].
  rewrite isWellFormed_ascii in Hb by lia. done.
Qed.

Lemma isWellFormed_nl (t : jsstring) : isWellFormed (nl ++ t) = isWellFormed t.
Proof. apply isWellFormed_ascii. unfold N.lt. reflexivity. Qed.

Ltac peel_literals H :=
  repeat first [rewrite isWellFormed_lit in H | rewrite isWellFormed_nl in H].

Lemma paired_or_else_inv (o : option jsstring) (d : jsstring) :
  paired (or_else o d) -> paired d -> on_option paired o.
Proof. destruct o as [[|c r]|]; cbn; intros; done. Qed.

Lemma paired_issue_body_inv (env : Env) (error : ErrorT) (v : View) :
  paired (issue_body env error v) ->
  paired_env env /\ paired_error error /\ paired (userReport v).
Proof.
  unfold paired, issue_body. intros H.
  peel_literals H. apply isWellFormed_before_nl in H as [Hmsg H].
  peel_literals H. apply isWellFormed_before_nl in H as [Hname H].
  peel_literals H. apply isWellFormed_before_nl in H as [Hdig H].
  peel_literals H. apply isWellFormed_before_nl in H as [Hur H].
  peel_literals H. apply isWellFormed_before_nl in H as [Hstack H].
  peel_literals H. apply isWellFormed_before_nl in H as [Hhref H].
  peel_literals H. apply isWellFormed_before_nl in H as [Hua H].
  peel_literals H. apply isWellFormed_before_nl in H as [Hiso H].
  repeat split; try done.
  - destruct (stack error); [exact Hstack|done].
  - by apply (paired_or_else_inv _ (lit "N/A")).
  - by apply (paired_or_else_inv (Some (userReport v))
                (lit "No additional information provided")).
Qed.

(** X14. [createGithubIssue] opens one window when the strings of the
    environment, of the error and of the user report are all free of
    unpaired surrogates, and throws a [URIError], opening none, in every
    other case. *)
Theorem createGithubIssue_throws_iff :
  forall (env : Env) (error : ErrorT) (v : View) (b : Browser),
    (paired_env env /\ paired_error error /\ paired (userReport v) ->
     exists url, createGithubIssue env error v b
                 = Normal (window_open url (lit "_blank") b))
    /\ (~ (paired_env env /\ paired_error error /\ paired (userReport v)) ->
        createGithubIssue env error v b = Throw URIError).
Proof.
  intros env error v b. unfold createGithubIssue, issue_url, encodeURIComponent.
  split.
  - intros (Penv & Perr & Pv).
    destruct (Encode_isWellFormed _ (paired_issue_title error Perr)) as [t ->].
    destruct (Encode_isWellFormed _ (paired_issue_body env error v Penv Perr Pv))
      as [bd ->].
    by eexists.
  - intros Hn. destruct (Encode (issue_title error)) as [t|]; [|done].
    destruct (Encode (issue_body env error v)) as [bd|] eqn:Eb; [|done].
    exfalso. apply Hn. apply paired_issue_body_inv. unfold paired.
    destruct (isWellFormed (issue_body env error v)) eqn:W; [done|].
    apply Encode_unpaired in W. congruence.
Qed.

Lemma createGithubIssue_throws_iff_witness :
  ((paired_env sample_env /\ paired_error sample_error
    /\ paired (userReport sample_view))
   /\ exists url, createGithubIssue sample_env sample_error sample_view sample_browser
                  = Normal (window_open url (lit "_blank") sample_browser))
  /\ (~ (paired_env sample_env /\ paired_error sample_error_unpaired
         /\ paired (userReport sample_view))
      /\ createGithubIssue sample_env sample_error_unpaired sample_view sample_browser
         = Throw URIError).
Proof.
  assert (Hn : ~ (paired_env sample_env /\ paired_error sample_error_unpaired
                  /\ paired (userReport sample_view))).
  { intros (_ & (_ & Hm & _) & _). discriminate Hm. }
  split; [split; [exact sample_paired|]|split; [exact Hn|]].
  - exact (proj1 (createGithubIssue_throws_iff sample_env sample_error sample_view
                    sample_browser) sample_paired).
  - exact (proj2 (createGithubIssue_throws_iff sample_env sample_error_unpaired
                    sample_view sample_browser) Hn).
Defined.

Lemma utf8_encode_octets (cp : N) :
  cp < 0x110000 ->
  Forall (fun b => b < 256) (utf8_encode cp)
  /\ (1 <= length (utf8_encode cp) <= 4)%nat
  /\ (cp < 0x10000 -> (length (utf8_encode cp) <= 3)%nat).
Proof.
  intros Hcp. unfold utf8_encode.
  destruct (N.ltb_spec cp 0x80); [|destruct (N.ltb_spec cp 0x800);
    [|destruct (N.ltb_spec cp 0x10000)]];
    (split; [repeat constructor; div_lia | cbn [length]; lia]).
Qed.

Lemma url_char_hex_upper (d : N) : d < 16 -> url_char (hex_upper d) = true.
Proof.
  intros Hd.
  by apply (N_below_forallb (fun d => url_char (hex_upper d)) 16) in Hd.
Qed.

Lemma percent_all_url_chars (octets : list N) (t : jsstring) :
  Forall (fun b => b < 256) octets ->
  Forall (fun c => url_char c = true) t ->
  Forall (fun c => url_char c = true) (percent_all octets ++ t).
Proof.
  intros Ho Ht. induction Ho as [|b octets Hb _ IH]; [done|].
  cbn [percent_all percent app].
  repeat (constructor; [first [reflexivity | apply url_char_hex_upper; div_lia]|]).
  exact IH.
Qed.

Lemma length_percent_all (octets : list N) :
  length (percent_all octets) = (3 * length octets)%nat.
Proof. induction octets as [|b r IH]; [done|]. cbn [percent_all percent app length]. lia. Qed.

(** The characters and the length of an encoded text. *)
Lemma Encode_url_chars (s : jsstring) :
  wf_string s ->
  forall e, Encode s = Some e ->
    Forall (fun c => url_char c = true) e
    /\ (length s <= length e <= 9 * length s)%nat.
Proof.
  revert s. apply (list_ind_pair (fun s => wf_string s -> forall e, _ -> _)).
  - intros _ e [= <-]. split; [constructor|cbn; lia].
  - intros c r IH1 IH2 Hwf e. apply Forall_cons in Hwf as [Hc Hr].
    cbn [Encode]. destruct (unescaped c) eqn:Hu.
    { destruct (Encode r) as [t|]; [|done]. intros [= <-].
      destruct (IH1 Hr t eq_refl) as [Hf Hl]. split.
      - constructor; [|done]. unfold url_char. by rewrite Hu.
      - cbn [length]. lia. }
    destruct (is_lead c) eqn:Hl.
    { destruct r as [|d r']; [done|]. destruct (is_trail d) eqn:Ht; [|done].
      apply Forall_cons in Hr as [Hd Hr'].
      destruct (Encode r') as [t|] eqn:Et; [|done]. intros [= <-].
      destruct (IH2 d r' eq_refl Hr' t Et) as [Hf Hlen].
      destruct (pair_scalar c d Hl Ht) as [[Hcp _] _].
      destruct (utf8_encode_octets _ Hcp) as (Ho & Hn & _). split.
      - by apply percent_all_url_chars.
      - rewrite length_app, length_percent_all. cbn [length]. lia. }
    destruct (is_trail c) eqn:Ht; [done|].
    destruct (Encode r) as [t|]; [|done]. intros [= <-].
    destruct (IH1 Hr t eq_refl) as [Hf Hlen].
    unfold code_unit_ok in Hc.
    destruct (utf8_encode_octets c ltac:(lia)) as (Ho & Hn & H3). split.
    + by apply percent_all_url_chars.
    + rewrite length_app, length_percent_all. cbn [length].
      specialize (H3 ltac:(lia)). lia.
Qed.

Lemma url_chars_forallb (l : jsstring) :
  forallb url_char l = true -> Forall (fun c => url_char c = true) l.
Proof.
  induction l as [|c l IH]; [constructor|].
  cbn [forallb]. intros [Hc Hl]%andb_prop. constructor; auto.
Qed.

(** X15. The issue URL starts with the fixed address of the tracker and
    holds only unreserved characters, percent signs and the [:], [/],
    [?], [=] and [&] of its fixed part: no space, no line break, no
    character outside ASCII. *)
Theorem issue_url_characters :
  forall (env : Env) (error : ErrorT) (v : View) (url : jsstring),
    wf_env env -> wf_error error -> wf_view v ->
    issue_url env error v = Normal url ->
    Forall (fun c => url_char c = true) url
    /\ exists rest,
         url = lit "https://github.com/vsthakur101/portal/issues/new?title=" ++ rest.
Proof.
  intros env error v url Henv Herr Hv. unfold issue_url, encodeURIComponent.
  destruct (Encode (issue_title error)) as [t|] eqn:Et; [|done].
  destruct (Encode (issue_body env error v)) as [bd|] eqn:Eb; [|done].
  intros [= <-]. split; [|by eexists].
  destruct (Encode_url_chars _ (wf_issue_title error Herr) t Et) as [Ht _].
  destruct (Encode_url_chars _ (wf_issue_body env error v Henv Herr Hv) bd Eb)
    as [Hb _].
  unfold githubUrl. repeat (apply Forall_app; split); try done.
  - by apply url_chars_forallb.
  - by apply url_chars_forallb.
Qed.

Lemma issue_url_characters_witness :
  (wf_env sample_env /\ wf_error sample_error /\ wf_view sample_view)
  /\ exists url,
       issue_url sample_env sample_error sample_view = Normal url
       /\ Forall (fun c => url_char c = true) url.
Proof.
  split; [exact sample_wf|].
  destruct (issue_url_decodes sample_env sample_error sample_view
              (proj1 sample_wf) (proj1 (proj2 sample_wf)) (proj2 (proj2 sample_wf))
              (proj1 sample_paired) (proj1 (proj2 sample_paired))
              (proj2 (proj2 sample_paired))) as (url & _ & _ & Hurl & _).
  exists url. split; [exact Hurl|].
  exact (proj1 (issue_url_characters sample_env sample_error sample_view url
                  (proj1 sample_wf) (proj1 (proj2 sample_wf)) (proj2 (proj2 sample_wf))
                  Hurl)).
Defined.

(** X16. The issue URL is 61 characters longer than title and body
    together at least, and 61 characters longer than nine times their
    length at most. *)
Theorem issue_url_length :
  forall (env : Env) (error : ErrorT) (v : View) (url : jsstring),
    wf_env env -> wf_error error -> wf_view v ->
    issue_url env error v = Normal url ->
    let n := (length (issue_title error) + length (issue_body env error v))%nat in
    (61 + n <= length url <= 61 + 9 * n)%nat.
Proof.
  intros env error v url Henv Herr Hv. unfold issue_url, encodeURIComponent.
  destruct (Encode (issue_title error)) as [t|] eqn:Et; [|done].
  destruct (Encode (issue_body env error v)) as [bd|] eqn:Eb; [|done].
  intros [= <-]. cbn zeta.
  destruct (Encode_url_chars _ (wf_issue_title error Herr) t Et) as [_ Ht].
  destruct (Encode_url_chars _ (wf_issue_body env error v Henv Herr Hv) bd Eb)
    as [_ Hb].
  unfold githubUrl. rewrite !length_app.
  change (length (lit "https://github.com/vsthakur101/portal/issues/new?title="))
    with 55%nat.
  change (length (lit "&body=")) with 6%nat. lia.
Qed.

Lemma issue_url_length_witness :
  (wf_env sample_env /\ wf_error sample_error /\ wf_view sample_view)
  /\ exists url,
       issue_url sample_env sample_error sample_view = Normal url
       /\ (length url
           <= 61 + 9 * (length (issue_title sample_error)
                        + length (issue_body sample_env sample_error sample_view)))%nat.
Proof.
  split; [exact sample_wf|].
  destruct (issue_url_decodes sample_env sample_error sample_view
              (proj1 sample_wf) (proj1 (proj2 sample_wf)) (proj2 (proj2 sample_wf))
              (proj1 sample_paired) (proj1 (proj2 sample_paired))
              (proj2 (proj2 sample_paired))) as (url & _ & _ & Hurl & _).
  exists url. split; [exact Hurl|].
  exact (proj2 (issue_url_length sample_env sample_error sample_view url
                  (proj1 sample_wf) (proj1 (proj2 sample_wf)) (proj2 (proj2 sample_wf))
                  Hurl)).
Defined.

End WellFormedFacts.
